(** * ralpha (ralphy CLI): the Copilot engine adapter and the cached task source

    A shallow embedding of

      - [CopilotEngine] (prompt sanitisation, error classification,
        [execute], [executeStreaming]), and
      - [CachedTaskSource] (cli/src/tasks/cached-task-source.ts),

    followed by the properties proved about them.

    Conventions of the embedding.

    - A JavaScript string is the sequence of its UTF-16 code units.  The
      model covers the strings whose code units are all below 256: a code
      unit is an [ascii], a string a [string].  On that range the regular
      expression class [\s], the line terminators, [trim] and
      [toLowerCase] are given in full.
    - A JavaScript number that the code computes with is an IEEE-754
      double: a primitive [float], whose addition rounds to nearest, ties
      to even.  Numbers that are only stored, compared or passed on (the
      flush interval, group numbers, exit codes, lengths) are integers.
    - A call that may throw (or a promise that may reject) returns an
      [Outcome]; state is passed explicitly.
    - [await] points are sequential composition: the cooperative
      interleaving of other callers between two awaits is not modelled. *)

From Stdlib Require Import List String Ascii ZArith Bool Lia DecimalString.
From Stdlib Require Floats.
Import ListNotations.

Open Scope string_scope.

(* ===================================================================== *)
(** * Part I: definitions                                                  *)
(* ===================================================================== *)

(** ** JavaScript string primitives used by the sources *)

Module Js.

Definition LF : ascii := "010"%char.
Definition CR : ascii := "013"%char.
Definition SP : ascii := " "%char.
Definition DQ : ascii := "034"%char.

Definition str1 (c : ascii) : string := String c EmptyString.

(** [LineTerminator] of ECMAScript, restricted to code units below 256:
    the character [.] of a regular expression matches everything else. *)
Definition is_line_terminator (c : ascii) : bool :=
  Ascii.eqb c LF || Ascii.eqb c CR.

(** [\s] and the set removed by [trim]: TAB, LF, VT, FF, CR, SP, NBSP. *)
Definition is_white_space (c : ascii) : bool :=
  let n := nat_of_ascii c in
  (Nat.leb 9 n && Nat.leb n 13) || Nat.eqb n 32 || Nat.eqb n 160.

(** [String.prototype.toLowerCase], one code unit at a time: A-Z and the
    Latin-1 capitals U+00C0..U+00DE (without the sign U+00D7) move up by 32. *)
Definition lower_char (c : ascii) : ascii :=
  let n := nat_of_ascii c in
  if (Nat.leb 65 n && Nat.leb n 90)
     || (Nat.leb 192 n && Nat.leb n 222 && negb (Nat.eqb n 215))
  then ascii_of_nat (n + 32) else c.

Fixpoint toLowerCase (s : string) : string :=
  match s with
  | EmptyString => EmptyString
  | String c s' => String (lower_char c) (toLowerCase s')
  end.

Definition isEmpty (s : string) : bool :=
  match s with EmptyString => true | _ => false end.

(** A string used as a condition: the empty string is falsy. *)
Definition truthy (s : string) : bool := negb (isEmpty s).

(** [s.startsWith(p)] *)
Fixpoint startsWith (p s : string) : bool :=
  match p with
  | EmptyString => true
  | String a p' =>
      match s with
      | EmptyString => false
      | String b s' => Ascii.eqb a b && startsWith p' s'
      end
  end.

(** [s.includes(p)] *)
Fixpoint includes (p s : string) : bool :=
  startsWith p s ||
  match s with
  | EmptyString => false
  | String _ s' => includes p s'
  end.

Fixpoint trimStart (s : string) : string :=
  match s with
  | EmptyString => EmptyString
  | String c s' => if is_white_space c then trimStart s' else s
  end.

Fixpoint trimEnd (s : string) : string :=
  match s with
  | EmptyString => EmptyString
  | String c s' =>
      let r := trimEnd s' in
      if is_white_space c && isEmpty r then EmptyString else String c r
  end.

Definition trim (s : string) : string := trimEnd (trimStart s).

(** [s.replace(/c/g, rep)] for a single literal character [c]. *)
Fixpoint replace_char (c : ascii) (rep : string) (s : string) : string :=
  match s with
  | EmptyString => EmptyString
  | String a s' =>
      (if Ascii.eqb a c then rep else str1 a) ++ replace_char c rep s'
  end.

(** [s.replace(/\r?\n/g, " ")] *)
Fixpoint replace_newlines (s : string) : string :=
  match s with
  | EmptyString => EmptyString
  | String c s' =>
      if Ascii.eqb c LF then String SP (replace_newlines s')
      else if Ascii.eqb c CR then
        match s' with
        | String d s'' =>
            if Ascii.eqb d LF then String SP (replace_newlines s'')
            else String c (replace_newlines s')
        | EmptyString => String c (replace_newlines s')
        end
      else String c (replace_newlines s')
  end.

(** [s.replace(/\s+/g, " ")]: every maximal run of white space becomes one
    space.  [in_run] tells that the previous character belonged to a run
    whose space has been emitted already. *)
Fixpoint collapse_from (in_run : bool) (s : string) : string :=
  match s with
  | EmptyString => EmptyString
  | String c s' =>
      if is_white_space c
      then if in_run then collapse_from true s'
           else String SP (collapse_from true s')
      else String c (collapse_from false s')
  end.

Definition collapse_whitespace (s : string) : string := collapse_from false s.

(** [s.split("\n")] *)
Fixpoint split_lines (s : string) : list string :=
  match s with
  | EmptyString => [EmptyString]
  | String c s' =>
      if Ascii.eqb c LF then EmptyString :: split_lines s'
      else match split_lines s' with
           | l :: ls => String c l :: ls
           | [] => [str1 c]
           end
  end.

(** [lines.join("\n")] *)
Fixpoint join_lines (ls : list string) : string :=
  match ls with
  | [] => EmptyString
  | [l] => l
  | l :: ls' => l ++ String LF (join_lines ls')
  end.

(** *** Numbers *)

(** A number is an IEEE-754 double. *)
Definition number : Set := PrimFloat.float.

(** [a + b] on numbers. *)
Definition plus (a b : number) : number := PrimFloat.add a b.

(** The number that holds a whole value: the nearest double, which is
    the value itself up to [2^53]. *)
Definition numberOfZ (z : Z) : number :=
  FloatOps.SF2Prim
    (SpecFloat.binary_normalize FloatOps.prec FloatOps.emax z 0 false).

(** [Number.MAX_SAFE_INTEGER] *)
Definition MAX_SAFE_INTEGER : Z := 2 ^ 53 - 1.

End Js.

(** ** Outcomes of calls that may throw *)

Inductive Outcome (A : Type) : Type :=
| Returned (a : A)
| Thrown (message : string).

Arguments Returned {A} a.
Arguments Thrown {A} message.

(** ** The Copilot engine adapter (CopilotEngine) *)

Module Copilot.

Import Js.

Record AIResult := mkAIResult {
  success : bool;
  response : string;
  inputTokens : Z;
  outputTokens : Z;
  cost : option string;
  error : option string
}.

Record EngineOptions := mkEngineOptions {
  modelOverride : option string;
  engineArgs : option (list string)
}.

(** What [execCommand] hands back to the adapter. *)
Record ExecResult := mkExecResult {
  stdout : string;
  stderr : string;
  exitCode : Z
}.

Definition name : string := "GitHub Copilot".
Definition cliCommand : string := "copilot".

(** *** sanitizePrompt *)

(** The six chained [replace] calls of the Windows branch, in source order. *)
Definition escape_cmd (s : string) : string :=
  replace_char DQ (String DQ (str1 DQ))
    (replace_char "|" "^|"
      (replace_char ">" "^>"
        (replace_char "<" "^<"
          (replace_char "&" "^&"
            (replace_char "^" "^^" s))))).

Definition sanitizePrompt (isWindows : bool) (prompt : string) : string :=
  let sanitized := trim (collapse_whitespace (replace_newlines prompt)) in
  if isWindows then escape_cmd sanitized else sanitized.




(** *** buildArgs *)

Definition buildArgs (isWindows : bool) (prompt : string)
    (options : option EngineOptions) : list string :=
  let args := ["--yolo"; "--stream=on"] in
  let args := (args ++ ["-p"; sanitizePrompt isWindows prompt])%list in
  let args :=
    match options with
    | Some {| modelOverride := Some m |} =>
        if truthy m then (args ++ ["--model"; m])%list else args
    | _ => args
    end in
  match options with
  | Some {| engineArgs := Some extra |} => (args ++ extra)%list
  | _ => args
  end.

(** *** checkCopilotErrors *)

(** The literal [error:] of the regular expression under the [i] flag: a
    code unit matches a pattern letter when both have the same upper case
    form, which on code units below 256 is equality of lower case forms
    for the letters e, r, o and plain equality for the colon. *)
Fixpoint match_literal_ci (lit s : string) : option string :=
  match lit with
  | EmptyString => Some s
  | String p lit' =>
      match s with
      | EmptyString => None
      | String c s' =>
          if Ascii.eqb (lower_char c) p then match_literal_ci lit' s' else None
      end
  end.

(** The longest prefix without a line terminator, and what follows it. *)
Fixpoint span_dots (s : string) : string * string :=
  match s with
  | EmptyString => (EmptyString, EmptyString)
  | String c s' =>
      if is_line_terminator c then (EmptyString, s)
      else let (g, rest) := span_dots s' in (String c g, rest)
  end.

(** [(.+?)(?:\n|$)] at the start of [s]: the lazy group grows one
    character at a time until a line feed or the end of input follows; it
    cannot step over a line terminator, so the only candidate is the whole
    run of ordinary characters, which must not be empty. *)
Definition match_group_eol (s : string) : option string :=
  let (g, rest) := span_dots s in
  if isEmpty g then None
  else match rest with
       | EmptyString => Some g
       | String c _ => if Ascii.eqb c LF then Some g else None
       end.

(** [\s*(.+?)(?:\n|$)] at the start of [s]: the star is greedy, so the
    longer white-space prefixes are tried first and given back one
    character at a time when the rest fails. *)
Fixpoint match_ws_group_eol (s : string) : option string :=
  match s with
  | EmptyString => match_group_eol s
  | String c s' =>
      if is_white_space c then
        match match_ws_group_eol s' with
        | Some g => Some g
        | None => match_group_eol s
        end
      else match_group_eol s
  end.

(** [output.match(/error:\s*(.+?)(?:\n|$)/i)]: the first group of the
    leftmost match, if there is a match. *)
Fixpoint match_error_line (s : string) : option string :=
  let here :=
    match match_literal_ci "error:" s with
    | Some rest => match_ws_group_eol rest
    | None => None
    end in
  match here with
  | Some g => Some g
  | None =>
      match s with
      | EmptyString => None
      | String _ s' => match_error_line s'
      end
  end.

Definition msg_not_authenticated : string :=
  "GitHub Copilot CLI is not authenticated. Run 'copilot' and use '/login' to authenticate, or set COPILOT_GITHUB_TOKEN environment variable.".
Definition msg_rate_limit : string :=
  "GitHub Copilot rate limit exceeded. Please wait and try again.".
Definition msg_network : string :=
  "Network error connecting to GitHub Copilot. Check your internet connection.".
Definition msg_generic : string :=
  "GitHub Copilot CLI returned an error".

Definition checkCopilotErrors (output : string) : option string :=
  let lower := toLowerCase output in
  let trimmed := trim output in
  if includes "no authentication" lower || includes "not authenticated" lower
  then Some msg_not_authenticated
  else if includes "rate limit" lower || includes "too many requests" lower
  then Some msg_rate_limit
  else if includes "network error" lower || includes "connection refused" lower
  then Some msg_network
  else if startsWith "error:" (toLowerCase trimmed)
          || includes (String LF "error:") lower
  then match match_error_line output with
       | Some g => Some (trim g)
       | None => Some msg_generic
       end
  else None.

(** One of the six keywords of the authentication, rate-limit and network
    checks occurs in the lower-cased output. *)
Definition mentionsKnownFailure (output : string) : bool :=
  let lower := toLowerCase output in
  includes "no authentication" lower || includes "not authenticated" lower
  || includes "rate limit" lower || includes "too many requests" lower
  || includes "network error" lower || includes "connection refused" lower.

(** The text after a line: nothing, or a line feed and more. *)
Definition endsLine (rest : string) : Prop :=
  rest = EmptyString \/ exists more, rest = String LF more.

(** The text before a line: nothing, or something ending in a line feed. *)
Definition startsLine (before : string) : Prop :=
  before = EmptyString \/ exists text, before = text ++ str1 LF.

(** *** parseOutput *)

(** [trimmed.startsWith(glyph)] for the command-prompt glyph of the
    source: its first code unit is above 255, so no string of the model
    starts with it. *)
Definition startsWithPromptGlyph (trimmed : string) : bool := false.

Definition meaningful (line : string) : bool :=
  let trimmed := trim line in
  truthy trimmed
  && negb (startsWith "?" trimmed)
  && negb (startsWithPromptGlyph trimmed)
  && negb (includes "Thinking..." trimmed)
  && negb (includes "Working on it..." trimmed).

Definition parseOutput (output : string) : string :=
  let lines := filter truthy (split_lines output) in
  let meaningfulLines := filter meaningful lines in
  let joined := join_lines meaningfulLines in
  if truthy joined then joined else "Task completed".

(** *** execute and executeStreaming *)

(** A value used as a condition after [string | null]: [null] and the
    empty string are both falsy. *)
Definition whenTruthy (e : option string) : option string :=
  match e with
  | Some m => if truthy m then Some m else None
  | None => None
  end.

(** The template literal [`${n}`] for an integer. *)
Definition decimal (n : Z) : string := NilZero.string_of_int (Z.to_int n).

Definition failed (response err : string) : AIResult :=
  {| success := false; response := response;
     inputTokens := 0; outputTokens := 0;
     cost := None; error := Some err |}.

Definition succeeded (response : string) (durationMs : Z) : AIResult :=
  {| success := true; response := response;
     inputTokens := 0; outputTokens := 0;
     cost := if (0 <? durationMs)%Z
             then Some ("duration:" ++ decimal durationMs) else None;
     error := None |}.



(** Modelled from the spec: what [CopilotEngine] imports from
    engines/base.ts, which is not among the sources at hand, together
    with the platform test of the module. *)
Class Base := {
  (** [process.platform === "win32"] *)
  isWindows : bool;
  (** The detector of a generic structured (JSON) error payload anywhere
      in the output; [None] is [null]. *)
  checkForErrors : string -> option string;
  (** The generic command-failed-with-code-N message including the
      captured output. *)
  formatCommandError : Z -> string -> string;
  (** The classification of one line of streamed output into a coarse
      step label; [None] is [null]. *)
  detectStepFromOutput : string -> option string;
  (** [execCommand] spawns the tool in [workDir] and resolves with the
      captured stdout, stderr and exit code; a rejection is [Thrown]. *)
  execCommand : string -> list string -> string -> Outcome ExecResult;
  (** The child process behind [execCommandStreaming]: the lines it
      emits, in arrival order, and how the wait for its exit ends. *)
  spawnStreaming : string -> list string -> string -> list string * Outcome Z
}.

Section Engine.

Context `{Base}.


(** Lines 84-130 of [execute], and again 218-264 of [executeStreaming]:
    the classification of the captured output. *)
Definition classify (output : string) (exitCode durationMs : Z) : AIResult :=
  match whenTruthy (checkForErrors output) with
  | Some jsonError => failed EmptyString jsonError
  | None =>
      match whenTruthy (checkCopilotErrors output) with
      | Some copilotError => failed EmptyString copilotError
      | None =>
          let response := parseOutput output in
          if negb (exitCode =? 0)%Z
          then failed response (formatCommandError exitCode output)
          else succeeded response durationMs
      end
  end.

(** [durationMs] is the difference of the two readings of [Date.now()]. *)
Definition execute (durationMs : Z) (prompt workDir : string)
    (options : option EngineOptions) : Outcome AIResult :=
  let args := buildArgs isWindows prompt options in
  match execCommand cliCommand args workDir with
  | Thrown e => Thrown e
  | Returned r =>
      let output := stdout r ++ stderr r in
      Returned (classify output (exitCode r) durationMs)
  end.




End Engine.

End Copilot.

(** ** The cached task source (cli/src/tasks/cached-task-source.ts) *)

Module Tasks.

(** Modelled from the spec: the [Task] record of tasks/types.ts
    (identifier, title, completion flag, optional parallel group). *)
Record Task := mkTask {
  id : string;
  title : string;
  completed : bool;
  parallelGroup : option Z
}.

(** *** [Set<string>]: insertion ordered, without duplicates *)

Definition StringSet := list string.

Definition set_has (x : string) (s : StringSet) : bool :=
  existsb (String.eqb x) s.

Definition set_add (x : string) (s : StringSet) : StringSet :=
  if set_has x s then s else (s ++ [x])%list.

Definition set_size (s : StringSet) : Z := Z.of_nat (List.length s).

(** *** The wrapped [TaskSource] *)

(** Modelled from the spec: the [TaskSource] interface of tasks/types.ts,
    with the methods the wrapper calls.  [B] is the state behind the
    wrapped object (for the file backed sources, the task file).  Every
    method may throw.  The two optional capabilities are [None] when the
    object lacks the method. *)
Class TaskSource (B : Type) := {
  inner_getAllTasks : B -> Outcome (list Task) * B;
  inner_markComplete : string -> B -> Outcome unit * B;
  inner_countCompleted : B -> Outcome Js.number * B;
  inner_getTasksInGroup : option (Z -> B -> Outcome (list Task) * B);
  (** [this.inner instanceof YamlTaskSource] *)
  inner_isYaml : bool;
  inner_getParallelGroup : option (string -> B -> Outcome Z * B)
}.

(** A call made on the wrapped source. *)
Inductive InnerCall :=
| CallGetAllTasks
| CallMarkComplete (id : string)
| CallCountCompleted
| CallGetTasksInGroup (group : Z)
| CallGetParallelGroup (title : string).

(** One [CachedTaskSource] object: its private fields, the state behind
    [this.inner], and (ghost) the calls made on [this.inner] so far, oldest
    first.  [flushTimer] is [true] when a timer handle is stored. *)
Record Cached (B : Type) := mkCached {
  inner : B;
  calls : list InnerCall;
  cachedTasks : option (list Task);
  pendingCompletions : StringSet;
  flushTimer : bool;
  flushIntervalMs : Z;
  isShuttingDown : bool
}.

Arguments mkCached {B}.
Arguments inner {B}.
Arguments calls {B}.
Arguments cachedTasks {B}.
Arguments pendingCompletions {B}.
Arguments flushTimer {B}.
Arguments flushIntervalMs {B}.
Arguments isShuttingDown {B}.

(** The class statics: the registry of instances (a [Set] of objects, in
    insertion order) and the registration flag. *)
Record Process (B : Type) := mkProcess {
  instances : list (Cached B);
  exitHandlersRegistered : bool
}.

Arguments mkProcess {B}.
Arguments instances {B}.
Arguments exitHandlersRegistered {B}.

Inductive Signal := ProcessExit | SIGINT | SIGTERM.

(** *** A method body: state passing with exceptions *)

Definition M (B A : Type) : Type := Cached B -> Outcome A * Cached B.

Definition ret {B A} (a : A) : M B A := fun s => (Returned a, s).

Definition throw {B A} (message : string) : M B A :=
  fun s => (Thrown message, s).

Definition bind {B A C} (m : M B A) (k : A -> M B C) : M B C :=
  fun s =>
    match m s with
    | (Returned a, s') => k a s'
    | (Thrown e, s') => (Thrown e, s')
    end.

Definition get {B} : M B (Cached B) := fun s => (Returned s, s).

Definition modify {B} (f : Cached B -> Cached B) : M B unit :=
  fun s => (Returned tt, f s).

Declare Scope method_scope.
Delimit Scope method_scope with method.
Notation "x <- m ;; k" := (bind m (fun x => k))
  (at level 61, m at next level, right associativity) : method_scope.
Notation "m ;; k" := (bind m (fun _ => k))
  (at level 61, right associativity) : method_scope.

Definition set_cachedTasks {B} (v : option (list Task)) (s : Cached B) :=
  mkCached (inner s) (calls s) v (pendingCompletions s)
           (flushTimer s) (flushIntervalMs s) (isShuttingDown s).

Definition set_pendingCompletions {B} (v : StringSet) (s : Cached B) :=
  mkCached (inner s) (calls s) (cachedTasks s) v
           (flushTimer s) (flushIntervalMs s) (isShuttingDown s).

Definition set_flushTimer {B} (v : bool) (s : Cached B) :=
  mkCached (inner s) (calls s) (cachedTasks s) (pendingCompletions s)
           v (flushIntervalMs s) (isShuttingDown s).

Definition set_isShuttingDown {B} (v : bool) (s : Cached B) :=
  mkCached (inner s) (calls s) (cachedTasks s) (pendingCompletions s)
           (flushTimer s) (flushIntervalMs s) v.

(** A call [this.inner.f(...)]: it runs on the wrapped state and is
    recorded. *)
Definition callInner {B A} (c : InnerCall) (f : B -> Outcome A * B) : M B A :=
  fun s =>
    let (r, b) := f (inner s) in
    (r, mkCached b (calls s ++ [c])%list (cachedTasks s)
          (pendingCompletions s) (flushTimer s) (flushIntervalMs s)
          (isShuttingDown s)).

(** *** The methods of [CachedTaskSource] *)

Section Methods.

Context {B : Type} `{TaskSource B}.

Local Open Scope method_scope.

(** The fields set by the constructor; [options?.flushIntervalMs ?? 1000]. *)
Definition new (wrapped : B) (flushIntervalMsOption : option Z) : Cached B :=
  mkCached wrapped [] None [] false
           (match flushIntervalMsOption with Some n => n | None => 1000%Z end)
           false.

(** [(t) => !this.pendingCompletions.has(t.id)] *)
Definition notPending (s : Cached B) (t : Task) : bool :=
  negb (set_has (id t) (pendingCompletions s)).

Definition getAllTasks : M B (list Task) :=
  s <- get ;;
  tasks <- match cachedTasks s with
           | Some tasks => ret tasks
           | None =>
               tasks <- callInner CallGetAllTasks inner_getAllTasks ;;
               modify (set_cachedTasks (Some tasks)) ;;
               ret tasks
           end ;;
  s <- get ;;
  ret (filter (notPending s) tasks).

Definition getNextTask : M B (option Task) :=
  tasks <- getAllTasks ;;
  ret (hd_error tasks).

Definition scheduleFlush : M B unit :=
  s <- get ;;
  if (flushIntervalMs s =? 0)%Z then ret tt
  else if flushTimer s then ret tt
  else modify (set_flushTimer true).

Definition markComplete (id : string) : M B unit :=
  modify (fun s => set_pendingCompletions (set_add id (pendingCompletions s)) s) ;;
  scheduleFlush.

Definition countRemaining : M B Z :=
  tasks <- getAllTasks ;;
  ret (Z.of_nat (List.length tasks)).

Definition countCompleted : M B Js.number :=
  innerCompleted <- callInner CallCountCompleted inner_countCompleted ;;
  s <- get ;;
  ret (Js.plus innerCompleted
         (Js.numberOfZ (set_size (pendingCompletions s)))).

Definition getTasksInGroup (group : Z) : M B (list Task) :=
  match inner_getTasksInGroup with
  | None => throw "Inner task source does not support getTasksInGroup"
  | Some f =>
      tasks <- callInner (CallGetTasksInGroup group) (f group) ;;
      s <- get ;;
      ret (filter (notPending s) tasks)
  end.

Definition getParallelGroup (title : string) : M B Z :=
  if negb inner_isYaml then ret 0%Z
  else match inner_getParallelGroup with
       | Some f => callInner (CallGetParallelGroup title) (f title)
       | None => throw "TypeError: this.inner.getParallelGroup is not a function"
       end.

(** The loop [for (const id of ...) await this.inner.markComplete(id)]:
    the first rejected write ends it. *)
Fixpoint writeAll (ids : list string) : M B unit :=
  match ids with
  | [] => ret tt
  | id :: rest =>
      callInner (CallMarkComplete id) (inner_markComplete id) ;;
      writeAll rest
  end.

(** [if (this.flushTimer) { clearTimeout(...); this.flushTimer = null }] *)
Definition cancelTimer : M B unit :=
  s <- get ;;
  if flushTimer s then modify (set_flushTimer false) else ret tt.

Definition flush : M B unit :=
  cancelTimer ;;
  s <- get ;;
  if (set_size (pendingCompletions s) =? 0)%Z then ret tt
  else
    writeAll (pendingCompletions s) ;;
    modify (set_pendingCompletions []) ;;
    modify (set_cachedTasks None).

Definition invalidateCache : M B unit := modify (set_cachedTasks None).

Definition hasPendingWrites (s : Cached B) : bool :=
  (0 <? set_size (pendingCompletions s))%Z.

(** The callback armed by [scheduleFlush]: a rejected flush is logged to
    the console and goes no further. *)
Definition onFlushTimer : M B unit :=
  modify (set_flushTimer false) ;;
  fun s =>
    match flush s with
    | (Thrown _, s') => (Returned tt, s')
    | r => r
    end.

(** [try { this.inner.markComplete(id) } catch {}]: the call is made, its
    outcome is dropped. *)
Definition writeIgnoringErrors (s : Cached B) (id : string) : Cached B :=
  snd (callInner (CallMarkComplete id) (inner_markComplete id) s).

Definition flushSync (s : Cached B) : Cached B :=
  if isShuttingDown s then s
  else
    let s := set_isShuttingDown true s in
    if (0 <? set_size (pendingCompletions s))%Z
    then fold_left writeIgnoringErrors (pendingCompletions s) s
    else s.

(** *** The statics *)

Definition registerExitHandlers (p : Process B) : Process B :=
  if exitHandlersRegistered p then p else mkProcess (instances p) true.

(** [new CachedTaskSource(inner, options)] *)
Definition construct (wrapped : B) (flushIntervalMsOption : option Z)
    (p : Process B) : Process B :=
  registerExitHandlers
    (mkProcess (instances p ++ [new wrapped flushIntervalMsOption])%list
               (exitHandlersRegistered p)).

Definition exitHandler (p : Process B) : Process B :=
  mkProcess (map flushSync (instances p)) (exitHandlersRegistered p).

(** What the registered handlers do on a shutdown signal, and the exit
    status they ask for.  [process.exit] emits the exit event, so after an
    interrupt or a termination signal the handler runs a second time. *)
Definition onSignal (sig : Signal) (p : Process B) : Process B * option Z :=
  if exitHandlersRegistered p then
    match sig with
    | ProcessExit => (exitHandler p, None)
    | SIGINT => (exitHandler (exitHandler p), Some 130%Z)
    | SIGTERM => (exitHandler (exitHandler p), Some 143%Z)
    end
  else (p, None).

(** *** Sequences of calls on one instance *)

Inductive Op :=
| OpGetAllTasks
| OpGetNextTask
| OpMarkComplete (id : string)
| OpCountRemaining
| OpCountCompleted
| OpGetTasksInGroup (group : Z)
| OpGetParallelGroup (title : string)
| OpFlush
| OpInvalidateCache
| OpFlushTimerFires
| OpFlushSync.

(** The state one call leaves behind, whether it returned or threw.  The
    timer fires only while it is armed. *)
Definition step (s : Cached B) (op : Op) : Cached B :=
  match op with
  | OpGetAllTasks => snd (getAllTasks s)
  | OpGetNextTask => snd (getNextTask s)
  | OpMarkComplete id => snd (markComplete id s)
  | OpCountRemaining => snd (countRemaining s)
  | OpCountCompleted => snd (countCompleted s)
  | OpGetTasksInGroup group => snd (getTasksInGroup group s)
  | OpGetParallelGroup title => snd (getParallelGroup title s)
  | OpFlush => snd (flush s)
  | OpInvalidateCache => snd (invalidateCache s)
  | OpFlushTimerFires => if flushTimer s then snd (onFlushTimer s) else s
  | OpFlushSync => flushSync s
  end.

Definition run (ops : list Op) (s : Cached B) : Cached B :=
  fold_left step ops s.

(** [markComplete(id)] for each [id] of a sequence, in order. *)
Definition markAll (ids : list string) (s : Cached B) : Cached B :=
  run (map OpMarkComplete ids) s.

(** No private field other than the wrapped state and the call log
    differs between two states. *)
Definition sameFields (s s' : Cached B) : Prop :=
  cachedTasks s' = cachedTasks s
  /\ pendingCompletions s' = pendingCompletions s
  /\ flushTimer s' = flushTimer s
  /\ flushIntervalMs s' = flushIntervalMs s
  /\ isShuttingDown s' = isShuttingDown s.

End Methods.

(** *** Two wrapped sources to run the model on *)

Definition completeIn (x : string) (t : Task) : Task :=
  if String.eqb (id t) x
  then mkTask (id t) (title t) true (parallelGroup t) else t.

Definition isOpen (t : Task) : bool := negb (completed t).

Definition inGroup (group : Z) (t : Task) : bool :=
  match parallelGroup t with
  | Some g => (g =? group)%Z
  | None => (group =? 0)%Z
  end.

(** A checklist kept as a list of tasks, without the optional methods;
    marking an unknown identifier throws. *)
#[export] Instance checklistSource : TaskSource (list Task) := {
  inner_getAllTasks := fun b => (Returned (filter isOpen b), b);
  inner_markComplete := fun x b =>
    if existsb (fun t => String.eqb (id t) x) b
    then (Returned tt, map (completeIn x) b)
    else (Thrown ("Task not found: " ++ x), b);
  inner_countCompleted := fun b =>
    (Returned (Js.numberOfZ (Z.of_nat (List.length (filter completed b)))),
     b);
  inner_getTasksInGroup := None;
  inner_isYaml := false;
  inner_getParallelGroup := None
}.

(** The same list behind a source with both optional methods, standing
    for a [YamlTaskSource]. *)
Record Grouped := mkGrouped { groupedTasks : list Task }.

#[export] Instance groupedSource : TaskSource Grouped := {
  inner_getAllTasks := fun b => (Returned (filter isOpen (groupedTasks b)), b);
  inner_markComplete := fun x b =>
    (Returned tt, mkGrouped (map (completeIn x) (groupedTasks b)));
  inner_countCompleted := fun b =>
    (Returned
       (Js.numberOfZ
          (Z.of_nat (List.length (filter completed (groupedTasks b))))), b);
  inner_getTasksInGroup := Some (fun group b =>
    (Returned (filter (fun t => isOpen t && inGroup group t) (groupedTasks b)), b));
  inner_isYaml := true;
  inner_getParallelGroup := Some (fun ttl b =>
    (Returned
       (match find (fun t => String.eqb (title t) ttl) (groupedTasks b) with
        | Some {| parallelGroup := Some g |} => g
        | _ => 0%Z
        end), b))
}.

Definition taskA : Task := mkTask "a" "Task A" false None.
Definition taskB : Task := mkTask "b" "Task B" false (Some 1%Z).

(** A fresh instance over the checklist [a, b], and one over the grouped
    source. *)
Definition fresh : Cached (list Task) := new [taskA; taskB] None.
Definition freshGrouped : Cached Grouped :=
  new (mkGrouped [taskA; taskB]) None.

End Tasks.

(** ** Stand-ins for the helpers of engines/base.ts

    Used only to run the model on concrete inputs. *)

Module Samples.

Import Js Copilot.

Definition noStructuredError (output : string) : option string := None.

Definition commandFailed (code : Z) (output : string) : string :=
  "Command failed with exit code " ++ decimal code ++ ": " ++ output.

Definition stepOf (line : string) : option string :=
  if includes "Reading" line then Some "Reading code"
  else if includes "Implementing" line then Some "Implementing"
  else if includes "Tests" line then Some "Testing"
  else None.

(** A child process that writes [out] to stdout and exits with [code]. *)
Definition writes (out : string) (code : Z)
    (command : string) (args : list string) (workDir : string)
    : Outcome ExecResult :=
  Returned {| stdout := out; stderr := EmptyString; exitCode := code |}.

(** A child process that emits [lines] and exits with [code]. *)
Definition emits (lines : list string) (code : Z)
    (command : string) (args : list string) (workDir : string)
    : list string * Outcome Z :=
  (lines, Returned code).

(** A Unix host on which the tool prints [out], or emits [lines] when
    streamed, and exits with [code]. *)
Definition host (out : string) (lines : list string) (code : Z) : Base :=
  {| isWindows := false;
     checkForErrors := noStructuredError;
     formatCommandError := commandFailed;
     detectStepFromOutput := stepOf;
     execCommand := writes out code;
     spawnStreaming := emits lines code |}.




Definition nl : string := str1 LF.

End Samples.

(** ** More wrapped sources to run the model on *)

Module MoreSamples.

Import Tasks.

(** A source whose task file is missing: every method throws. *)
#[export] Instance offlineSource : TaskSource unit := {
  inner_getAllTasks := fun b => (Thrown "ENOENT: no such file", b);
  inner_markComplete := fun x b => (Thrown "ENOENT: no such file", b);
  inner_countCompleted := fun b => (Thrown "ENOENT: no such file", b);
  inner_getTasksInGroup := None;
  inner_isYaml := false;
  inner_getParallelGroup := None
}.

Definition offline : Cached unit := new tt None.

(** A checklist instance whose automatic flush is disabled. *)
Definition manual : Cached (list Task) := new [taskA; taskB] (Some 0%Z).

(** A checklist with one task done and two to go, read once, with [b]
    marked since. *)
Definition started : Cached (list Task) :=
  markAll ["b"]
    (snd (getAllTasks
            (new [mkTask "z" "Task Z" true None; taskA; taskB] None))).

(** A source that keeps nothing but the number of completed tasks. *)
#[export] Instance tallySource : TaskSource Js.number := {
  inner_getAllTasks := fun b => (Returned [], b);
  inner_markComplete := fun x b => (Returned tt, Js.plus b (Js.numberOfZ 1));
  inner_countCompleted := fun b => (Returned b, b);
  inner_getTasksInGroup := None;
  inner_isYaml := false;
  inner_getParallelGroup := None
}.

(** An instance over a tally that stands at [completed]. *)
Definition tallyAt (completed : Z) : Cached Js.number :=
  new (Js.numberOfZ completed) None.

End MoreSamples.

(** ** Predicates on strings used in statements *)

Module Chars.

Import Js.

(** Every character of [s] satisfies [p]. *)
Fixpoint allChars (p : ascii -> bool) (s : string) : bool :=
  match s with
  | EmptyString => true
  | String c s' => p c && allChars p s'
  end.

(** [c] is not a line terminator: the characters [.] matches. *)
Definition ordinary (c : ascii) : bool := negb (is_line_terminator c).

(** [c] is not a line feed: the characters a line of [split] holds. *)
Definition notLF (c : ascii) : bool := negb (Ascii.eqb c LF).

(** [c] is white space that does not end a line. *)
Definition blank (c : ascii) : bool :=
  is_white_space c && negb (is_line_terminator c).

End Chars.

(** ** The telemetry webhook (second part of src/unnamed/part_002) *)

Module Telemetry.

Import Js.

Inductive TelemetryLevel := Anonymous | Full.

(** What a [catch] clause receives: an [Error] object with its name and
    message, or any other value, with what [String(value)] gives. *)
Inductive Raised :=
| ErrorObject (name message : string)
| OtherValue (asString : string).

Inductive LogEntry :=
| LogDebug (message : string)
| LogError (message : string).

Record Notifications := mkNotifications {
  telemetry_webhook : option string
}.

Record RalphyConfig := mkRalphyConfig {
  notifications : option Notifications
}.

(** The [Response] of [fetch], as far as the sender looks at it;
    [text()] may reject. *)
Record Response := mkResponse {
  ok : bool;
  status : Z;
  text : Outcome string
}.

Inductive Fetched :=
| Resolved (response : Response)
| Rejected (error : Raised).

Section Webhook.

(** The values held by the fields of a session (strings, numbers,
    lists): the declarations of telemetry/types.ts are not at hand, and
    the sender only copies them. *)
Variable Value : Type.

(** A [Session] or [SessionFull] object.  For the three keys of a full
    session [None] says that the object has no such key. *)
Record Session := mkSession {
  sessionId : Value;
  engine : Value;
  mode : Value;
  cliVersion : Value;
  platform : Value;
  totalTokensIn : Value;
  totalTokensOut : Value;
  totalDurationMs : Value;
  taskCount : Value;
  successCount : Value;
  failedCount : Value;
  toolCalls : Value;
  tags : Value;
  prompt : option Value;
  response : option Value;
  filePaths : option Value
}.

(** [payload.details]; a field is [None] when it is [undefined]. *)
Record Details := mkDetails {
  details_prompt : option Value;
  details_response : option Value;
  details_filePaths : option Value
}.

Record Payload := mkPayload {
  event : string;
  version : string;
  timestamp : string;
  payload_session : Session;
  details : option Details
}.

Record Request := mkRequest {
  url : string;
  method : string;
  contentType : string;
  body : Payload
}.

(** The object literal of [payload.session]: the thirteen fields copied
    one by one, that is the session without the three keys of a full
    session. *)
Definition withoutDetails (session : Session) : Session :=
  {| sessionId := sessionId session; engine := engine session;
     mode := mode session; cliVersion := cliVersion session;
     platform := platform session;
     totalTokensIn := totalTokensIn session;
     totalTokensOut := totalTokensOut session;
     totalDurationMs := totalDurationMs session;
     taskCount := taskCount session;
     successCount := successCount session;
     failedCount := failedCount session;
     toolCalls := toolCalls session; tags := tags session;
     prompt := None; response := None; filePaths := None |}.

Definition isFullSession (session : Session) : bool :=
  match prompt session, response session, filePaths session with
  | None, None, None => false
  | _, _, _ => true
  end.

(** [now] is [new Date().toISOString()]. *)
Definition buildPayload (now : string) (session : Session)
    (level : TelemetryLevel) : Payload :=
  let payload :=
    {| event := "telemetry_session";
       version := "1.0";
       timestamp := now;
       payload_session := withoutDetails session;
       details := None |} in
  match level with
  | Full =>
      if isFullSession session
      then {| event := event payload;
              version := version payload;
              timestamp := timestamp payload;
              payload_session := payload_session payload;
              details := Some {| details_prompt := prompt session;
                                 details_response := response session;
                                 details_filePaths := filePaths session |} |}
      else payload
  | Anonymous => payload
  end.

(** [config?.notifications?.telemetry_webhook] *)
Definition configuredUrl (config : option RalphyConfig) : option string :=
  match config with
  | Some {| notifications := Some {| telemetry_webhook := Some u |} |} =>
      Some u
  | _ => None
  end.

(** [!webhookUrl || webhookUrl.trim() === ""] *)
Definition notConfigured (webhookUrl : option string) : bool :=
  match webhookUrl with
  | None => true
  | Some u => negb (truthy u) || isEmpty (trim u)
  end.

(** The message logged by the [catch] clause. *)
Definition failureLog (error : Raised) : LogEntry :=
  match error with
  | ErrorObject name message =>
      if String.eqb name "AbortError"
      then LogError "Telemetry webhook timed out after 10 seconds"
      else LogError ("Telemetry webhook failed: " ++ message)
  | OtherValue asString =>
      LogError ("Telemetry webhook failed: " ++ asString)
  end.

(** What one call logs, and the requests it makes.  [fetch] stands for
    the network: what the one request comes back with, the abort after
    ten seconds included; [level] is [None] when the argument is left
    out. *)
Definition sendTelemetryWebhook (now : string)
    (fetch : Request -> Fetched) (session : Session)
    (config : option RalphyConfig) (level : option TelemetryLevel)
    : list LogEntry * list Request :=
  let level := match level with Some l => l | None => Anonymous end in
  let webhookUrl := configuredUrl config in
  match webhookUrl with
  | None => ([LogDebug "No telemetry webhook configured, skipping"], [])
  | Some u =>
      if notConfigured webhookUrl
      then ([LogDebug "No telemetry webhook configured, skipping"], [])
      else
        let payload := buildPayload now session level in
        let request :=
          {| url := u; method := "POST";
             contentType := "application/json"; body := payload |} in
        match fetch request with
        | Rejected error => ([failureLog error], [request])
        | Resolved response =>
            if negb (ok response) then
              let text := match text response with
                          | Returned t => t
                          | Thrown _ => EmptyString
                          end in
              let message :=
                "HTTP " ++ Copilot.decimal (status response)
                ++ (if truthy text then ": " ++ text else EmptyString) in
              ([failureLog (ErrorObject "Error" message)], [request])
            else
              ([LogDebug ("Telemetry webhook sent successfully to " ++ u)],
               [request])
        end
  end.

End Webhook.

Arguments prompt {Value}.
Arguments response {Value}.
Arguments filePaths {Value}.
Arguments details {Value}.
Arguments url {Value}.
Arguments method {Value}.
Arguments body {Value}.
Arguments payload_session {Value}.
Arguments isFullSession {Value}.
Arguments buildPayload {Value}.
Arguments sendTelemetryWebhook {Value}.
Arguments withoutDetails {Value}.
Arguments mkSession {Value}.

(** A session to run the model on, with strings for values. *)
Definition sampleSession : Session string :=
  mkSession "s-1" "copilot" "loop" "4.2.0" "linux" "0" "0" "1200" "3" "2"
            "1" "[]" "[]" (Some "fix the build") None None.

(** A network on which every request is answered with status 500 and a
    body that cannot be read. *)
Definition serverError (request : Request string) : Fetched :=
  Resolved {| ok := false; status := 500; text := Thrown "aborted" |}.

Definition configWith (u : string) : option RalphyConfig :=
  Some {| notifications := Some {| telemetry_webhook := Some u |} |}.

End Telemetry.

(** ** Syncing the PRD to a GitHub issue (cli/src/git/issue-sync.ts) *)

Module IssueSync.

Import Js.

Inductive LogEntry :=
| LogWarn (message : string)
| LogDebug (message : string)
| LogSuccess (message : string).

(** A child process after [await proc.exited]: its exit code, and what
    reading its stderr gives. *)
Record Proc := mkProc {
  exitCode : Z;
  stderr : Outcome string
}.

(** One [Bun.spawn] call: the command line and the [cwd] option. *)
Record Spawn := mkSpawn {
  command : list string;
  cwd : option string
}.

(** What one call returns, logs and spawns, in order. *)
Record Run := mkRun {
  result : bool;
  logs : list LogEntry;
  spawns : list Spawn
}.

Section Sync.

(** [Bun.spawn] followed by [await proc.exited]; [Thrown] when the
    spawn throws. *)
Variable spawn : Spawn -> Outcome Proc.

(** [readFileSync(path, "utf-8")] *)
Variable readFileSync : string -> Outcome string.

(** [join] of node:path. *)
Variable join : string -> string -> string.

Definition authStatus : Spawn := mkSpawn ["gh"; "auth"; "status"] None.

Definition isGhAvailable : bool :=
  match spawn authStatus with
  | Returned proc => (exitCode proc =? 0)%Z
  | Thrown _ => false
  end.

Definition prdPathOf (prdFile workDir : string) : string :=
  if startsWith "/" prdFile then prdFile else join workDir prdFile.

Definition issueEdit (issueNumber : Z) (prdContent workDir : string)
    : Spawn :=
  mkSpawn ["gh"; "issue"; "edit"; Copilot.decimal issueNumber; "--body";
           prdContent]
          (Some workDir).

(** [error instanceof Error ? error.message : String(error)] is the
    message carried by [Thrown]. *)
Definition syncPrdToIssue (prdFile : string) (issueNumber : Z)
    (workDir : string) : Run :=
  if negb isGhAvailable then
    mkRun false
      [LogWarn "Cannot sync: gh CLI not installed or not authenticated"]
      [authStatus]
  else
    match readFileSync (prdPathOf prdFile workDir) with
    | Thrown _ =>
        mkRun false [LogWarn ("Cannot sync: " ++ prdFile ++ " not found")]
          [authStatus]
    | Returned prdContent =>
        let syncing :=
          LogDebug ("Syncing " ++ prdFile ++ " to issue #"
                    ++ Copilot.decimal issueNumber) in
        let edit := issueEdit issueNumber prdContent workDir in
        let failedWith reason :=
          LogWarn ("Failed to sync PRD to issue #"
                   ++ Copilot.decimal issueNumber ++ ": " ++ reason) in
        match spawn edit with
        | Thrown errorMsg =>
            mkRun false [syncing; failedWith errorMsg] [authStatus; edit]
        | Returned proc =>
            if (exitCode proc =? 0)%Z then
              mkRun true
                [syncing;
                 LogSuccess ("Synced PRD -> GitHub issue #"
                             ++ Copilot.decimal issueNumber)]
                [authStatus; edit]
            else
              match stderr proc with
              | Returned text =>
                  mkRun false [syncing; failedWith text] [authStatus; edit]
              | Thrown errorMsg =>
                  mkRun false [syncing; failedWith errorMsg]
                    [authStatus; edit]
              end
        end
    end.

End Sync.

(** A machine on which [gh] is logged in and every edit succeeds, with
    one file. *)
Definition ghWorks (s : Spawn) : Outcome Proc :=
  Returned (mkProc 0 (Returned EmptyString)).

Definition oneFile (path : string) : Outcome string :=
  if String.eqb path "/repo/PRD.md" then Returned "- [ ] ship it"
  else Thrown "ENOENT".

Definition joinPaths (dir file : string) : string := dir ++ "/" ++ file.

End IssueSync.

(** ** Proof automation *)

(** Opens a method body down to the state-passing primitives. *)
Ltac unfold_method :=
  unfold Tasks.getNextTask, Tasks.countRemaining, Tasks.countCompleted,
    Tasks.getAllTasks, Tasks.getTasksInGroup, Tasks.getParallelGroup,
    Tasks.markComplete, Tasks.scheduleFlush, Tasks.invalidateCache,
    Tasks.onFlushTimer, Tasks.bind, Tasks.ret, Tasks.throw, Tasks.get,
    Tasks.modify, Tasks.callInner in *.

(* ===================================================================== *)
(** * Part II: properties                                                  *)
(* ===================================================================== *)

(** ** The cached task source *)

Section CachedTaskSourceFacts.

Import Tasks.

Context {B : Type} `{TaskSource B}.

Lemma sameFields_refl (s : Cached B) : sameFields s s.
Proof. repeat split. Qed.

Lemma sameFields_trans (s1 s2 s3 : Cached B) :
  sameFields s1 s2 -> sameFields s2 s3 -> sameFields s1 s3.
Proof.
  unfold sameFields.
  intros (a1 & a2 & a3 & a4 & a5) (b1 & b2 & b3 & b4 & b5).
  repeat split; congruence.
Qed.

Lemma callInner_fields {A : Type} (c : InnerCall) (f : B -> Outcome A * B)
    (s : Cached B) :
  sameFields s (snd (callInner c f s))
  /\ calls (snd (callInner c f s)) = (calls s ++ [c])%list
  /\ fst (callInner c f s) = fst (f (inner s))
  /\ inner (snd (callInner c f s)) = snd (f (inner s)).
Proof.
  unfold callInner. destruct (f (inner s)) as [r b]. simpl.
  repeat split.
Qed.

Lemma set_has_true (x : string) (s : StringSet) :
  set_has x s = true <-> In x s.
Proof.
  unfold set_has. rewrite existsb_exists. split.
  - intros (y & Hy & Heq). apply String.eqb_eq in Heq. now subst.
  - intros Hin. exists x. split; [exact Hin | apply String.eqb_refl].
Qed.

Lemma set_has_false (x : string) (s : StringSet) :
  set_has x s = false <-> ~ In x s.
Proof.
  rewrite <- set_has_true. destruct (set_has x s); split; intros; congruence.
Qed.

Lemma set_add_In (x y : string) (s : StringSet) :
  In y (set_add x s) <-> In y s \/ y = x.
Proof.
  unfold set_add. destruct (set_has x s) eqn:Hx.
  - apply set_has_true in Hx. split; [now left | intros [|]; subst; trivial].
  - rewrite in_app_iff. simpl. split; intros [|]; auto.
    + destruct H0 as [|[]]; auto.
Qed.

Lemma set_add_NoDup (x : string) (s : StringSet) :
  NoDup s -> NoDup (set_add x s).
Proof.
  intros Hs. unfold set_add. destruct (set_has x s) eqn:Hx; trivial.
  apply set_has_false in Hx.
  apply NoDup_rev in Hs. rewrite <- (rev_involutive (s ++ [x])).
  apply NoDup_rev. rewrite rev_app_distr. simpl.
  constructor; [rewrite <- in_rev; exact Hx | exact Hs].
Qed.

Lemma filter_notPending (s : Cached B) (all : list Task) (t : Task) :
  In t (filter (notPending s) all) ->
  In t all /\ set_has (id t) (pendingCompletions s) = false.
Proof.
  intros Hin. apply filter_In in Hin. destruct Hin as [Hall Hnp].
  split; [exact Hall |]. unfold notPending in Hnp.
  now apply negb_true_iff in Hnp.
Qed.

Lemma getAllTasks_returned (s s' : Cached B) (tasks : list Task) :
  getAllTasks s = (Returned tasks, s') ->
  sameFields (set_cachedTasks (cachedTasks s') s) s'
  /\ exists all, cachedTasks s' = Some all
                 /\ tasks = filter (notPending s) all.
Proof.
  unfold_method. destruct (cachedTasks s) as [ts|] eqn:Hc; simpl.
  - intros Heq. inversion Heq; subst. rewrite Hc. split.
    + unfold set_cachedTasks, sameFields. simpl. now rewrite Hc.
    + now exists ts.
  - destruct (inner_getAllTasks (inner s)) as [[ts|e] b]; simpl;
      intros Heq; inversion Heq; subst; simpl.
    split; [repeat split | now exists ts].
Qed.

Lemma getTasksInGroup_returned (group : Z) (s s' : Cached B)
    (tasks : list Task) :
  getTasksInGroup group s = (Returned tasks, s') ->
  sameFields s s'
  /\ exists f all, inner_getTasksInGroup = Some f
                   /\ fst (f group (inner s)) = Returned all
                   /\ tasks = filter (notPending s) all.
Proof.
  unfold_method. destruct inner_getTasksInGroup as [f|]; [| discriminate].
  destruct (f group (inner s)) as [[ts|e] b] eqn:Hf; simpl;
    intros Heq; inversion Heq; subst.
  split; [repeat split |]. exists f, ts. rewrite Hf. auto.
Qed.

(** C1.  After any sequence of calls on a cached task source, a task
    whose identifier is in the pending-completion set is in no result of
    [getAllTasks] and in no result of [getTasksInGroup]: the result is
    the cached (respectively the wrapped source's) list without the tasks
    whose identifier is pending, and the read leaves the set as it was. *)
Theorem reads_exclude_pending (ops : list Op) (s0 : Cached B) :
  let s := run ops s0 in
  (forall tasks s', getAllTasks s = (Returned tasks, s') ->
     pendingCompletions s' = pendingCompletions s
     /\ (exists all, cachedTasks s' = Some all
                     /\ tasks = filter (notPending s) all)
     /\ forall t, In t tasks ->
                  set_has (id t) (pendingCompletions s) = false)
  /\
  (forall group tasks s', getTasksInGroup group s = (Returned tasks, s') ->
     pendingCompletions s' = pendingCompletions s
     /\ forall t, In t tasks ->
                  set_has (id t) (pendingCompletions s) = false).
Proof.
  intros s. split.
  - intros tasks s' Hget.
    destruct (getAllTasks_returned _ _ _ Hget) as [Hsame (all & Hc & Ht)].
    split; [apply Hsame | split; [now exists all |]].
    intros t Hin. subst tasks. now apply filter_notPending in Hin.
  - intros group tasks s' Hget.
    destruct (getTasksInGroup_returned _ _ _ _ Hget)
      as [Hsame (f & all & _ & _ & Ht)].
    split; [apply Hsame |].
    intros t Hin. subst tasks. now apply filter_notPending in Hin.
Qed.

(** *** The shutdown flush *)

Lemma writeIgnoringErrors_fields (s : Cached B) (x : string) :
  sameFields s (writeIgnoringErrors s x)
  /\ calls (writeIgnoringErrors s x) = (calls s ++ [CallMarkComplete x])%list.
Proof.
  unfold writeIgnoringErrors.
  destruct (callInner_fields (CallMarkComplete x) (inner_markComplete x) s)
    as (Hs & Hc & _).
  now split.
Qed.

Lemma fold_writeIgnoringErrors (ids : list string) (s : Cached B) :
  sameFields s (fold_left writeIgnoringErrors ids s)
  /\ calls (fold_left writeIgnoringErrors ids s)
     = (calls s ++ map CallMarkComplete ids)%list.
Proof.
  revert s. induction ids as [|x ids IH]; intros s; simpl.
  - split; [apply sameFields_refl | now rewrite app_nil_r].
  - destruct (IH (writeIgnoringErrors s x)) as [Hs Hc].
    destruct (writeIgnoringErrors_fields s x) as [Hs1 Hc1].
    split.
    + eapply sameFields_trans; eassumption.
    + rewrite Hc, Hc1, <- app_assoc. reflexivity.
Qed.

Lemma flushSync_shutting_down (s : Cached B) :
  isShuttingDown (flushSync s) = true.
Proof.
  unfold flushSync. destruct (isShuttingDown s) eqn:Hd; [exact Hd |].
  destruct (0 <? _)%Z; [| reflexivity].
  destruct (fold_writeIgnoringErrors
              (pendingCompletions (set_isShuttingDown true s))
              (set_isShuttingDown true s)) as [(_ & _ & _ & _ & Hf) _].
  exact Hf.
Qed.

Lemma flushSync_again (s : Cached B) : flushSync (flushSync s) = flushSync s.
Proof.
  unfold flushSync at 1. now rewrite flushSync_shutting_down.
Qed.

Lemma flushSync_calls (s : Cached B) :
  calls (flushSync s)
  = (calls s ++ if isShuttingDown s then []
                else map CallMarkComplete (pendingCompletions s))%list.
Proof.
  unfold flushSync. destruct (isShuttingDown s).
  - now rewrite app_nil_r.
  - destruct (0 <? _)%Z eqn:Hsize.
    + destruct (fold_writeIgnoringErrors
                  (pendingCompletions (set_isShuttingDown true s))
                  (set_isShuttingDown true s)) as [_ Hc].
      exact Hc.
    + simpl in *. unfold set_size in Hsize.
      destruct (pendingCompletions s); simpl in *;
        [now rewrite app_nil_r | discriminate].
Qed.

Lemma exitHandler_again (p : Process B) :
  exitHandler (exitHandler p) = exitHandler p.
Proof.
  unfold exitHandler. simpl. rewrite map_map. f_equal.
  apply map_ext. intros s. apply flushSync_again.
Qed.

Lemma flushSync_fields (s : Cached B) :
  pendingCompletions (flushSync s) = pendingCompletions s
  /\ cachedTasks (flushSync s) = cachedTasks s
  /\ flushTimer (flushSync s) = flushTimer s
  /\ flushIntervalMs (flushSync s) = flushIntervalMs s.
Proof.
  unfold flushSync. destruct (isShuttingDown s); [repeat split |].
  destruct (0 <? _)%Z; [| repeat split].
  destruct (fold_writeIgnoringErrors
              (pendingCompletions (set_isShuttingDown true s))
              (set_isShuttingDown true s)) as [(Hc & Hp & Ht & Hi & _) _].
  repeat split; assumption.
Qed.

(** C10.  The shutdown flush changes no private field of the instance
    other than the shutting-down flag: the pending-completion set, the
    cache, the timer and the interval are as before, so
    [hasPendingWrites] answers as before and a populated cache stays
    populated. *)
Theorem flushSync_keeps_pending_and_cache (s : Cached B) :
  pendingCompletions (flushSync s) = pendingCompletions s
  /\ cachedTasks (flushSync s) = cachedTasks s
  /\ flushTimer (flushSync s) = flushTimer s
  /\ flushIntervalMs (flushSync s) = flushIntervalMs s
  /\ hasPendingWrites (flushSync s) = hasPendingWrites s
  /\ isShuttingDown (flushSync s) = true.
Proof.
  destruct (flushSync_fields s) as (Hp & Hc & Ht & Hi).
  repeat split; try assumption.
  - unfold hasPendingWrites. now rewrite Hp.
  - apply flushSync_shutting_down.
Qed.

(** *** Optional capabilities *)

(** C8 (as amended).  [getTasksInGroup] on a wrapped source without that
    method throws its explicit error and touches nothing;
    [getParallelGroup] on a wrapped source that is not a
    [YamlTaskSource] does not fail: it returns the default group 0,
    without a call on the wrapped source. *)
Theorem optional_capabilities (s : Cached B) (group : Z) (ttl : string) :
  (inner_getTasksInGroup = None ->
     getTasksInGroup group s
     = (Thrown "Inner task source does not support getTasksInGroup", s))
  /\ (inner_isYaml = false ->
       getParallelGroup ttl s = (Returned 0%Z, s)).
Proof.
  split; intros Hnone.
  - unfold getTasksInGroup. now rewrite Hnone.
  - unfold getParallelGroup. now rewrite Hnone.
Qed.

(** *** flush *)

Lemma cancelTimer_fields (s : Cached B) :
  fst (cancelTimer s) = Returned tt
  /\ inner (snd (cancelTimer s)) = inner s
  /\ calls (snd (cancelTimer s)) = calls s
  /\ cachedTasks (snd (cancelTimer s)) = cachedTasks s
  /\ pendingCompletions (snd (cancelTimer s)) = pendingCompletions s
  /\ flushTimer (snd (cancelTimer s)) = false
  /\ isShuttingDown (snd (cancelTimer s)) = isShuttingDown s.
Proof.
  unfold cancelTimer, bind, get, modify, ret.
  destruct (flushTimer s) eqn:Ht; simpl; repeat split; exact Ht.
Qed.

Lemma writeAll_cons (x : string) (rest : list string) (s : Cached B) :
  writeAll (x :: rest) s
  = match callInner (CallMarkComplete x) (inner_markComplete x) s with
    | (Returned _, s1) => writeAll rest s1
    | (Thrown e, s1) => (Thrown e, s1)
    end.
Proof. reflexivity. Qed.

(** What the write loop has done when it stops: on success one call per
    identifier; on failure the calls for a prefix that succeeded and for
    the identifier whose write threw, and none after it. *)
Lemma writeAll_outcome (ids : list string) (s : Cached B) :
  sameFields s (snd (writeAll ids s))
  /\ match fst (writeAll ids s) with
     | Returned _ =>
         calls (snd (writeAll ids s))
         = (calls s ++ map CallMarkComplete ids)%list
     | Thrown e =>
         exists done x rest s1,
           ids = (done ++ x :: rest)%list
           /\ writeAll done s = (Returned tt, s1)
           /\ inner_markComplete x (inner s1)
              = (Thrown e, inner (snd (writeAll ids s)))
           /\ calls (snd (writeAll ids s))
              = (calls s ++ map CallMarkComplete (done ++ [x]))%list
     end.
Proof.
  revert s. induction ids as [|x ids IH]; intros s.
  - simpl. split; [apply sameFields_refl | now rewrite app_nil_r].
  - rewrite writeAll_cons.
    destruct (callInner_fields (CallMarkComplete x) (inner_markComplete x) s)
      as (Hs & Hc & Hr & Hb).
    destruct (callInner (CallMarkComplete x) (inner_markComplete x) s)
      as [[[]|e] s1] eqn:Hcall; simpl in Hs, Hc, Hr, Hb.
    + destruct (IH s1) as [IHs IHr]. split.
      * eapply sameFields_trans; eassumption.
      * destruct (fst (writeAll ids s1)) as [u|e] eqn:Hw.
        -- rewrite IHr, Hc, <- app_assoc. reflexivity.
        -- destruct IHr as (done & y & rest & s2 & Hids & Hdone & Hy & Hcs).
           exists (x :: done), y, rest, s2. repeat split.
           ++ simpl. now rewrite Hids.
           ++ rewrite writeAll_cons, Hcall. exact Hdone.
           ++ exact Hy.
           ++ rewrite Hcs, Hc, <- app_assoc. reflexivity.
    + simpl. split; [exact Hs |].
      exists [], x, ids, s. repeat split.
      * rewrite Hb. destruct (inner_markComplete x (inner s)) as [r b].
        simpl in *. now subst.
      * exact Hc.
Qed.

Lemma flush_unfold (s : Cached B) :
  flush s
  = let s1 := snd (cancelTimer s) in
    if (set_size (pendingCompletions s1) =? 0)%Z then (Returned tt, s1)
    else match writeAll (pendingCompletions s1) s1 with
         | (Returned _, s2) =>
             (Returned tt, set_cachedTasks None (set_pendingCompletions [] s2))
         | (Thrown e, s2) => (Thrown e, s2)
         end.
Proof.
  unfold flush, bind at 1.
  destruct (cancelTimer_fields s) as (Hr & _).
  destruct (cancelTimer s) as [r s1]. simpl in *. subst r.
  unfold bind, get, ret, modify. simpl.
  destruct (set_size (pendingCompletions s1) =? 0)%Z; [reflexivity |].
  destruct (writeAll (pendingCompletions s1) s1) as [[u|e] s2]; reflexivity.
Qed.

Lemma set_size_zero (p : StringSet) : (set_size p =? 0)%Z = true <-> p = [].
Proof.
  unfold set_size. destruct p; simpl; split; intros Hp;
    try reflexivity; discriminate.
Qed.

(** A [flush] that throws has stopped at a write that threw. *)
Lemma flush_thrown_inv (s s' : Cached B) (e : string) :
  flush s = (Thrown e, s') ->
  pendingCompletions s' = pendingCompletions s
  /\ hasPendingWrites s' = true
  /\ cachedTasks s' = cachedTasks s
  /\ exists done x rest s1,
       pendingCompletions s = (done ++ x :: rest)%list
       /\ writeAll done (snd (cancelTimer s)) = (Returned tt, s1)
       /\ inner_markComplete x (inner s1) = (Thrown e, inner s')
       /\ calls s' = (calls s ++ map CallMarkComplete (done ++ [x]))%list.
Proof.
  rewrite flush_unfold. cbv zeta.
  destruct (cancelTimer_fields s)
    as (_ & _ & Hcalls & Hcache & Hpend & _ & _).
  set (s1 := snd (cancelTimer s)) in *.
  destruct (set_size (pendingCompletions s1) =? 0)%Z eqn:Hsize;
    [discriminate |].
  destruct (writeAll_outcome (pendingCompletions s1) s1)
    as [(Hc & Hp & _) Hout].
  destruct (writeAll (pendingCompletions s1) s1) as [[u|e'] s2];
    [discriminate |].
  intros Heq. inversion Heq; subst e' s2. simpl in *.
  assert (Hp' : pendingCompletions s' = pendingCompletions s)
    by congruence.
  split; [exact Hp' |].
  split.
  { unfold hasPendingWrites. rewrite Hp', <- Hpend.
    unfold set_size in *. destruct (pendingCompletions s1);
      [discriminate | reflexivity]. }
  split; [congruence |].
  destruct Hout as (done & x & rest & s2 & Hids & Hdone & Hx & Hcs).
  exists done, x, rest, s2. repeat split; try assumption; congruence.
Qed.

Lemma writeAll_stops (done rest : list string) (x e : string)
    (s0 s1 : Cached B) (b : B) :
  writeAll done s0 = (Returned tt, s1) ->
  inner_markComplete x (inner s1) = (Thrown e, b) ->
  writeAll (done ++ x :: rest) s0
  = (Thrown e,
     snd (callInner (CallMarkComplete x) (inner_markComplete x) s1)).
Proof.
  revert s0. induction done as [|y done IH]; intros s0 Hdone Hx.
  - simpl in Hdone. inversion Hdone; subst s1.
    cbn [app]. rewrite writeAll_cons.
    unfold callInner. rewrite Hx. reflexivity.
  - cbn [app]. rewrite writeAll_cons in *.
    destruct (callInner (CallMarkComplete y) (inner_markComplete y) s0)
      as [[u|e'] s2]; [| discriminate].
    now apply IH.
Qed.

(** C3.  When, during [flush], the write of a pending identifier throws
    after the writes of the identifiers before it have succeeded, the
    flush throws the same error at once: the calls made are those for
    the identifiers before the failing one and for the failing one, none
    for the identifiers after it; the pending-completion set is exactly
    what it was (so it still holds every identifier not yet written), it
    is not empty, and the cache is not invalidated. *)
Theorem flush_failure_keeps_pending (s s1 : Cached B)
    (done rest : list string) (x e : string) (b : B) :
  pendingCompletions s = (done ++ x :: rest)%list ->
  writeAll done (snd (cancelTimer s)) = (Returned tt, s1) ->
  inner_markComplete x (inner s1) = (Thrown e, b) ->
  exists s',
    flush s = (Thrown e, s')
    /\ inner s' = b
    /\ calls s' = (calls s ++ map CallMarkComplete (done ++ [x]))%list
    /\ pendingCompletions s' = pendingCompletions s
    /\ hasPendingWrites s' = true
    /\ cachedTasks s' = cachedTasks s.
Proof.
  intros Hpend Hdone Hx.
  destruct (cancelTimer_fields s)
    as (_ & _ & Hcalls & Hcache & Hp0 & _ & _).
  set (s0 := snd (cancelTimer s)) in *.
  exists (snd (callInner (CallMarkComplete x) (inner_markComplete x) s1)).
  destruct (callInner_fields (CallMarkComplete x) (inner_markComplete x) s1)
    as ((Hc2 & Hp2 & _) & Hcalls2 & _ & Hb2).
  destruct (writeAll_outcome done s0) as [(Hc1 & Hp1 & _) Hcalls1].
  rewrite Hdone in Hc1, Hp1, Hcalls1. simpl in Hc1, Hp1, Hcalls1.
  assert (Hp' :
    pendingCompletions
      (snd (callInner (CallMarkComplete x) (inner_markComplete x) s1))
    = pendingCompletions s) by congruence.
  split.
  { rewrite flush_unfold. cbv zeta. fold s0.
    destruct (set_size (pendingCompletions s0) =? 0)%Z eqn:Hsize.
    - apply set_size_zero in Hsize. rewrite Hp0, Hpend in Hsize.
      destruct done; discriminate.
    - rewrite Hp0, Hpend.
      now rewrite (writeAll_stops done rest x e s0 s1 b Hdone Hx). }
  split; [rewrite Hb2, Hx; reflexivity |].
  split.
  { rewrite Hcalls2, Hcalls1, Hcalls, map_app, app_assoc. reflexivity. }
  split; [exact Hp' |].
  split.
  { unfold hasPendingWrites. rewrite Hp', Hpend. unfold set_size.
    rewrite length_app. simpl. 
    destruct (List.length done + S (List.length rest))%nat eqn:Hn;
      [lia | reflexivity]. }
  congruence.
Qed.

(** *** markComplete, then flush *)

Lemma markComplete_fields (x : string) (s : Cached B) :
  fst (markComplete x s) = Returned tt
  /\ pendingCompletions (snd (markComplete x s))
     = set_add x (pendingCompletions s)
  /\ inner (snd (markComplete x s)) = inner s
  /\ calls (snd (markComplete x s)) = calls s
  /\ cachedTasks (snd (markComplete x s)) = cachedTasks s.
Proof.
  unfold markComplete, scheduleFlush, bind, get, modify, ret. simpl.
  destruct (flushIntervalMs s =? 0)%Z; [repeat split |].
  destruct (flushTimer s); repeat split.
Qed.

Lemma markAll_fields (ids : list string) (s : Cached B) :
  pendingCompletions (markAll ids s)
  = fold_left (fun p x => set_add x p) ids (pendingCompletions s)
  /\ inner (markAll ids s) = inner s
  /\ calls (markAll ids s) = calls s
  /\ cachedTasks (markAll ids s) = cachedTasks s.
Proof.
  unfold markAll, run. revert s.
  induction ids as [|x ids IH]; intros s; simpl; [repeat split |].
  destruct (markComplete_fields x s) as (_ & Hp & Hi & Hc & Ht).
  destruct (IH (snd (markComplete x s))) as (IHp & IHi & IHc & IHt).
  rewrite IHp, IHi, IHc, IHt, Hp, Hi, Hc, Ht. repeat split.
Qed.

Lemma fold_set_add_In (ids : list string) (p : StringSet) (y : string) :
  In y (fold_left (fun p x => set_add x p) ids p) <-> In y p \/ In y ids.
Proof.
  revert p. induction ids as [|x ids IH]; intros p; simpl.
  - tauto.
  - rewrite IH, set_add_In. intuition auto.
Qed.

Lemma fold_set_add_NoDup (ids : list string) (p : StringSet) :
  NoDup p -> NoDup (fold_left (fun p x => set_add x p) ids p).
Proof.
  revert p. induction ids as [|x ids IH]; intros p Hp; simpl; [exact Hp |].
  apply IH. now apply set_add_NoDup.
Qed.

(** A successful flush after a sequence of [markComplete] calls, from a
    state whose pending set has no duplicates. *)
Lemma markAll_flush_outcome (ids : list string)
    (s0 s' : Cached B) :
  NoDup (pendingCompletions s0) ->
  flush (markAll ids s0) = (Returned tt, s') ->
  let written := pendingCompletions (markAll ids s0) in
  calls s' = (calls s0 ++ map CallMarkComplete written)%list
  /\ NoDup written
  /\ (forall x, In x written <-> In x (pendingCompletions s0) \/ In x ids)
  /\ (forall x, In x ids -> count_occ string_dec written x = 1)
  /\ pendingCompletions s' = []
  /\ hasPendingWrites s' = false
  /\ (written <> [] -> cachedTasks s' = None)
  /\ (written = [] -> cachedTasks s' = cachedTasks s0).
Proof.
  intros Hnd Hflush written.
  destruct (markAll_fields ids s0) as (Hp & _ & Hcalls & Hcache).
  fold written in Hp.
  assert (Hnd' : NoDup written).
  { rewrite Hp. now apply fold_set_add_NoDup. }
  assert (Hin : forall x,
             In x written <-> In x (pendingCompletions s0) \/ In x ids).
  { intros x. rewrite Hp. apply fold_set_add_In. }
  rewrite flush_unfold in Hflush. cbv zeta in Hflush.
  destruct (cancelTimer_fields (markAll ids s0))
    as (_ & _ & Hc1 & Ht1 & Hp1 & _ & _).
  set (s1 := snd (cancelTimer (markAll ids s0))) in *.
  fold written in Hp1.
  assert (Hend :
    calls s' = (calls s0 ++ map CallMarkComplete written)%list
    /\ pendingCompletions s' = []
    /\ (written <> [] -> cachedTasks s' = None)
    /\ (written = [] -> cachedTasks s' = cachedTasks s0)).
  { destruct (set_size (pendingCompletions s1) =? 0)%Z eqn:Hsize.
    - apply set_size_zero in Hsize.
      inversion Hflush; subst s'. rewrite Hp1 in Hsize.
      rewrite Hsize, app_nil_r. repeat split; try congruence.
    - destruct (writeAll_outcome (pendingCompletions s1) s1)
        as [(Hc & Hpp & _) Hout].
      destruct (writeAll (pendingCompletions s1) s1) as [[u|e] s2];
        [| discriminate].
      inversion Hflush; subst s'. simpl in *.
      rewrite Hout, Hp1, Hc1, Hcalls. repeat split.
      intros Hw. rewrite Hp1 in Hsize.
      rewrite Hw in Hsize. discriminate. }
  destruct Hend as (E1 & E2 & E3 & E4).
  repeat split; try assumption; try apply Hin.
  - intros x Hx. apply NoDup_count_occ'; [exact Hnd' |].
    apply Hin. now right.
  - unfold hasPendingWrites. now rewrite E2.
Qed.

(** *** The pending set of a reachable state has no duplicates *)

Lemma flush_pending (s : Cached B) :
  pendingCompletions (snd (flush s)) = pendingCompletions s
  \/ pendingCompletions (snd (flush s)) = [].
Proof.
  rewrite flush_unfold. cbv zeta.
  destruct (cancelTimer_fields s) as (_ & _ & _ & _ & Hp & _ & _).
  set (s1 := snd (cancelTimer s)) in *.
  destruct (set_size (pendingCompletions s1) =? 0)%Z; [now left |].
  destruct (writeAll_outcome (pendingCompletions s1) s1) as [(_ & Hpp & _) _].
  destruct (writeAll (pendingCompletions s1) s1) as [[u|e] s2]; simpl in *.
  - now right.
  - left. congruence.
Qed.

Lemma step_pending (s : Cached B) (op : Op) :
  pendingCompletions (step s op) = pendingCompletions s
  \/ pendingCompletions (step s op) = []
  \/ exists x, pendingCompletions (step s op)
               = set_add x (pendingCompletions s).
Proof.
  destruct op as [| | x | | | group | ttl | | | |]; simpl.
  - left. unfold_method. destruct (cachedTasks s); simpl; [reflexivity |].
    destruct (inner_getAllTasks (inner s)) as [[ts|e] b]; reflexivity.
  - left. unfold_method. destruct (cachedTasks s); simpl; [reflexivity |].
    destruct (inner_getAllTasks (inner s)) as [[ts|e] b]; reflexivity.
  - right. right. exists x. apply markComplete_fields.
  - left. unfold_method. destruct (cachedTasks s); simpl; [reflexivity |].
    destruct (inner_getAllTasks (inner s)) as [[ts|e] b]; reflexivity.
  - left. unfold_method.
    destruct (inner_countCompleted (inner s)) as [[n|e] b]; reflexivity.
  - left. unfold_method. destruct inner_getTasksInGroup as [f|];
      [| reflexivity].
    destruct (f group (inner s)) as [[ts|e] b]; reflexivity.
  - left. unfold_method. destruct inner_isYaml; simpl; [| reflexivity].
    destruct inner_getParallelGroup as [f|]; [| reflexivity].
    destruct (f ttl (inner s)) as [[n|e] b]; reflexivity.
  - destruct (flush_pending s); auto.
  - now left.
  - destruct (flushTimer s); [| now left].
    unfold onFlushTimer, bind, modify. simpl.
    destruct (flush_pending (set_flushTimer false s)) as [Hp|Hp];
      destruct (flush (set_flushTimer false s)) as [[u|e] s2];
      simpl in *; auto.
  - left. apply flushSync_fields.
Qed.

Lemma run_NoDup (ops : list Op) (s : Cached B) :
  NoDup (pendingCompletions s) -> NoDup (pendingCompletions (run ops s)).
Proof.
  unfold run. revert s. induction ops as [|op ops IH]; intros s Hs; simpl;
    [exact Hs |].
  apply IH. destruct (step_pending s op) as [Hp | [Hp | (x & Hp)]];
    rewrite Hp; [exact Hs | constructor | now apply set_add_NoDup].
Qed.

(** C2 (as amended).  On an instance in any state reached since its
    construction, let any sequence of [markComplete] calls be followed by
    a [flush] that succeeds.  The flush makes exactly one [markComplete]
    call on the wrapped source for each identifier then pending, in the
    order the identifiers were first marked: once for every identifier
    of the sequence however often it was marked, and nothing else is
    called.  Afterwards nothing is pending.  The cache is invalidated if
    something was pending; with nothing pending (an empty sequence on an
    instance without pending completions) the flush is a no-op and the
    cache is as it was. *)
Theorem markComplete_then_flush_writes_once (wrapped : B)
    (interval : option Z) (ops : list Op) (ids : list string)
    (s' : Cached B) :
  let s0 := run ops (new wrapped interval) in
  flush (markAll ids s0) = (Returned tt, s') ->
  let written := pendingCompletions (markAll ids s0) in
  calls s' = (calls s0 ++ map CallMarkComplete written)%list
  /\ NoDup written
  /\ (forall x, In x written <-> In x (pendingCompletions s0) \/ In x ids)
  /\ (forall x, In x ids -> count_occ string_dec written x = 1)
  /\ pendingCompletions s' = []
  /\ hasPendingWrites s' = false
  /\ (written <> [] -> cachedTasks s' = None)
  /\ (written = [] -> cachedTasks s' = cachedTasks s0).
Proof.
  intros s0 Hflush. apply markAll_flush_outcome; [| exact Hflush].
  apply run_NoDup. constructor.
Qed.

(** *** Once shutting down, always shutting down *)

Lemma flush_shutting_down (s : Cached B) :
  isShuttingDown (snd (flush s)) = isShuttingDown s.
Proof.
  rewrite flush_unfold. cbv zeta.
  destruct (cancelTimer_fields s) as (_ & _ & _ & _ & _ & _ & Hd).
  set (s1 := snd (cancelTimer s)) in *.
  destruct (set_size (pendingCompletions s1) =? 0)%Z; [exact Hd |].
  destruct (writeAll_outcome (pendingCompletions s1) s1)
    as [(_ & _ & _ & _ & Hw) _].
  destruct (writeAll (pendingCompletions s1) s1) as [[u|e] s2]; simpl in *;
    congruence.
Qed.

Lemma step_shutting_down (s : Cached B) (op : Op) :
  isShuttingDown s = true -> isShuttingDown (step s op) = true.
Proof.
  intros Hd.
  destruct op as [| | x | | | group | ttl | | | |]; simpl.
  - unfold_method. destruct (cachedTasks s); simpl; [exact Hd |].
    destruct (inner_getAllTasks (inner s)) as [[ts|e] b]; exact Hd.
  - unfold_method. destruct (cachedTasks s); simpl; [exact Hd |].
    destruct (inner_getAllTasks (inner s)) as [[ts|e] b]; exact Hd.
  - unfold_method. simpl. destruct (flushIntervalMs s =? 0)%Z; [exact Hd |].
    destruct (flushTimer s); exact Hd.
  - unfold_method. destruct (cachedTasks s); simpl; [exact Hd |].
    destruct (inner_getAllTasks (inner s)) as [[ts|e] b]; exact Hd.
  - unfold_method.
    destruct (inner_countCompleted (inner s)) as [[n|e] b]; exact Hd.
  - unfold_method. destruct inner_getTasksInGroup as [f|]; [| exact Hd].
    destruct (f group (inner s)) as [[ts|e] b]; exact Hd.
  - unfold_method. destruct inner_isYaml; simpl; [| exact Hd].
    destruct inner_getParallelGroup as [f|]; [| exact Hd].
    destruct (f ttl (inner s)) as [[n|e] b]; exact Hd.
  - now rewrite flush_shutting_down.
  - exact Hd.
  - destruct (flushTimer s); [| exact Hd].
    unfold onFlushTimer, bind, modify. simpl.
    pose proof (flush_shutting_down (set_flushTimer false s)) as Hf.
    destruct (flush (set_flushTimer false s)) as [[u|e] s2];
      simpl in *; congruence.
  - apply flushSync_shutting_down.
Qed.

Lemma run_shutting_down (ops : list Op) (s : Cached B) :
  isShuttingDown s = true -> isShuttingDown (run ops s) = true.
Proof.
  unfold run. revert s. induction ops as [|op ops IH]; intros s Hd; simpl;
    [exact Hd |].
  apply IH. now apply step_shutting_down.
Qed.

(** C7.  The shutdown flush writes at most once per instance: the first
    call of [flushSync] on an instance that is not yet shutting down
    makes one write per pending identifier, and every further call, on
    its own, after any other calls on the instance, or through the exit
    handler run again by any sequence of shutdown signals, leaves the
    instance and the wrapped source exactly as they were. *)
Theorem flushSync_writes_at_most_once (s : Cached B) (n : nat)
    (ops : list Op) (p : Process B) (signals : list Signal) :
  calls (flushSync s)
    = (calls s ++ if isShuttingDown s then []
                  else map CallMarkComplete (pendingCompletions s))%list
  /\ Nat.iter n flushSync (flushSync s) = flushSync s
  /\ flushSync (run ops (flushSync s)) = run ops (flushSync s)
  /\ exitHandler (exitHandler p) = exitHandler p
  /\ fold_left (fun q sig => fst (onSignal sig q)) signals (exitHandler p)
     = exitHandler p.
Proof.
  split; [apply flushSync_calls |].
  split.
  { induction n as [|n IH]; simpl; [reflexivity |].
    rewrite IH. apply flushSync_again. }
  split.
  { unfold flushSync at 1.
    now rewrite (run_shutting_down ops _ (flushSync_shutting_down s)). }
  split; [apply exitHandler_again |].
  induction signals as [|sig signals IH]; simpl; [reflexivity |].
  assert (Hstep : fst (onSignal sig (exitHandler p)) = exitHandler p).
  { unfold onSignal.
    destruct (exitHandlersRegistered (exitHandler p)); [| reflexivity].
    destruct sig; simpl; now rewrite !exitHandler_again. }
  rewrite Hstep. exact IH.
Qed.

End CachedTaskSourceFacts.

(** ** The Copilot engine adapter: prompt sanitisation *)

Section SanitizePromptFacts.

Import Js Copilot.







Lemma string_app_assoc (x y z : string) : (x ++ y) ++ z = x ++ (y ++ z).
Proof. induction x as [|a x IH]; simpl; [reflexivity | now rewrite IH]. Qed.








Lemma includes_cons (p : string) (a : ascii) (s : string) :
  includes p (String a s) = startsWith p (String a s) || includes p s.
Proof. reflexivity. Qed.

Lemma startsWith_cons (a : ascii) (p : string) (b : ascii) (s : string) :
  startsWith (String a p) (String b s) = Ascii.eqb a b && startsWith p s.
Proof. reflexivity. Qed.




End SanitizePromptFacts.

(** ** The Copilot engine adapter: execute and executeStreaming *)

Section EngineFacts.

Import Js Copilot.

Context `{Base}.




(** The four ways [classify] ends, in the order it tries them. *)
Lemma classify_cases (output : string) (exitCode durationMs : Z) :
  (exists e, whenTruthy (checkForErrors output) = Some e
             /\ classify output exitCode durationMs = failed EmptyString e)
  \/ (whenTruthy (checkForErrors output) = None
      /\ exists e, whenTruthy (checkCopilotErrors output) = Some e
                   /\ classify output exitCode durationMs
                      = failed EmptyString e)
  \/ (whenTruthy (checkForErrors output) = None
      /\ whenTruthy (checkCopilotErrors output) = None
      /\ exitCode <> 0%Z
      /\ classify output exitCode durationMs
         = failed (parseOutput output) (formatCommandError exitCode output))
  \/ (whenTruthy (checkForErrors output) = None
      /\ whenTruthy (checkCopilotErrors output) = None
      /\ exitCode = 0%Z
      /\ classify output exitCode durationMs
         = succeeded (parseOutput output) durationMs).
Proof.
  unfold classify.
  destruct (whenTruthy (checkForErrors output)) as [e|];
    [left; now exists e |].
  destruct (whenTruthy (checkCopilotErrors output)) as [e|];
    [right; left; split; [reflexivity | now exists e] |].
  destruct (Z.eqb_spec exitCode 0) as [Hz|Hz]; simpl.
  - right; right; right. repeat split. exact Hz.
  - right; right; left. repeat split. exact Hz.
Qed.

(** [execute] has no handler of its own: it throws exactly what
    [execCommand] throws. *)
Lemma execute_rethrows (durationMs : Z) (prompt workDir : string)
    (options : option EngineOptions) (e : string) :
  execCommand cliCommand (buildArgs isWindows prompt options) workDir
  = Thrown e <->
  execute durationMs prompt workDir options = Thrown e.
Proof.
  unfold execute.
  destruct (execCommand cliCommand (buildArgs isWindows prompt options)
              workDir) as [r|e']; split; intros Heq;
    try discriminate; inversion Heq; reflexivity.
Qed.




(** *** The generic error line *)

Lemma toLowerCase_app (x y : string) :
  toLowerCase (x ++ y) = toLowerCase x ++ toLowerCase y.
Proof. induction x as [|a x IH]; simpl; [reflexivity | now rewrite IH]. Qed.

Lemma match_literal_ci_none (lit s : string) :
  startsWith lit (toLowerCase s) = false -> match_literal_ci lit s = None.
Proof.
  revert s. induction lit as [|p lit IH]; intros s; [discriminate |].
  destruct s as [|c s]; [reflexivity |].
  cbn [toLowerCase match_literal_ci]. rewrite startsWith_cons.
  rewrite Ascii.eqb_sym. destruct (Ascii.eqb (lower_char c) p); simpl.
  - apply IH.
  - reflexivity.
Qed.

(** An occurrence of [error:] cannot begin in a text that has none and
    run over into a following [error: disk full]. *)
Lemma no_straddle (lx lt : string) :
  lx <> EmptyString ->
  startsWith "error:" lx = false ->
  startsWith "error:" (lx ++ "error: disk full" ++ lt) = false.
Proof.
  intros Hne Hs.
  destruct lx as [|c1 [|c2 [|c3 [|c4 [|c5 [|c6 lx]]]]]];
    [congruence | | | | | |];
    cbn [append]; repeat rewrite startsWith_cons;
    try (repeat rewrite startsWith_cons in Hs; exact Hs);
    repeat match goal with
           | |- context [Ascii.eqb ?a ?c] =>
               is_var c; destruct (Ascii.eqb a c)
           end;
    reflexivity.
Qed.

Lemma match_error_line_cons (c : ascii) (s : string) :
  match_error_line (String c s)
  = match
      match match_literal_ci "error:" (String c s) with
      | Some rest => match_ws_group_eol rest
      | None => None
      end
    with
    | Some g => Some g
    | None => match_error_line s
    end.
Proof. reflexivity. Qed.

Lemma match_error_line_skip (before rest : string) :
  includes "error:" (toLowerCase before) = false ->
  match_error_line (before ++ "Error: disk full" ++ rest)
  = match_error_line ("Error: disk full" ++ rest).
Proof.
  induction before as [|c before IH]; intros Hinc; [reflexivity |].
  cbn [toLowerCase] in Hinc. rewrite includes_cons in Hinc.
  apply orb_false_iff in Hinc. destruct Hinc as [Hhere Hlater].
  change (String c before ++ "Error: disk full" ++ rest)
    with (String c (before ++ "Error: disk full" ++ rest)).
  rewrite match_error_line_cons.
  rewrite match_literal_ci_none; [now apply IH |].
  change (String c (before ++ "Error: disk full" ++ rest))
    with (String c before ++ "Error: disk full" ++ rest).
  rewrite toLowerCase_app.
  change (toLowerCase ("Error: disk full" ++ rest))
    with ("error: disk full" ++ toLowerCase rest).
  apply no_straddle; [discriminate | exact Hhere].
Qed.

Lemma match_error_line_disk_full (rest : string) :
  endsLine rest ->
  match_error_line ("Error: disk full" ++ rest) = Some "disk full".
Proof. intros [-> | (more & ->)]; reflexivity. Qed.

Lemma includes_app_r (q x y : string) :
  startsWith q y = true -> includes q (x ++ y) = true.
Proof.
  intros Hq. induction x as [|a x IH].
  - destruct y; simpl; now rewrite Hq.
  - cbn [append]. rewrite includes_cons, IH. apply orb_true_r.
Qed.

Lemma checkCopilotErrors_disk_full (before rest : string) :
  startsLine before -> endsLine rest ->
  includes "error:" (toLowerCase before) = false ->
  mentionsKnownFailure (before ++ "Error: disk full" ++ rest) = false ->
  checkCopilotErrors (before ++ "Error: disk full" ++ rest)
  = Some "disk full".
Proof.
  intros Hbefore Hrest Hnone Hkw.
  unfold mentionsKnownFailure in Hkw. cbv zeta in Hkw.
  repeat (apply orb_false_iff in Hkw; destruct Hkw as [Hkw ?]).
  unfold checkCopilotErrors. cbv zeta.
  repeat match goal with
         | Hf : ?b = false |- context [?b] => rewrite Hf
         end.
  cbn [orb].
  rewrite match_error_line_skip by exact Hnone.
  rewrite match_error_line_disk_full by exact Hrest.
  assert (Hgeneric :
    startsWith "error:"
      (toLowerCase (trim (before ++ "Error: disk full" ++ rest)))
    || includes (String LF "error:")
         (toLowerCase (before ++ "Error: disk full" ++ rest)) = true).
  { destruct Hbefore as [-> | (text & ->)].
    - apply orb_true_iff. left. reflexivity.
    - apply orb_true_iff. right.
      rewrite string_app_assoc, toLowerCase_app.
      apply includes_app_r. reflexivity. }
  rewrite Hgeneric. reflexivity.
Qed.

(** C6 (as amended).  [execute] classifies in priority order and by
    exactly one path: a structured error wins; failing that, a plain-text
    error; failing that, a non-zero exit code; otherwise the call
    succeeds.  For the error line: when the captured output has the line
    [Error: disk full] at its start or after a line feed, no occurrence of
    [error:] (in any case) before that line, none of the authentication,
    rate-limit and network keywords, and no structured error, [execute]
    returns a failure whose error is [disk full], whatever the exit
    code. *)
Theorem execute_error_priority (durationMs : Z) (prompt workDir : string)
    (options : option EngineOptions) (res : ExecResult)
    (before rest : string) :
  execCommand cliCommand (buildArgs isWindows prompt options) workDir
  = Returned res ->
  let output := stdout res ++ stderr res in
  let result := execute durationMs prompt workDir options in
  (forall e, whenTruthy (checkForErrors output) = Some e ->
     result = Returned (failed EmptyString e))
  /\ (whenTruthy (checkForErrors output) = None ->
      forall e, whenTruthy (checkCopilotErrors output) = Some e ->
        result = Returned (failed EmptyString e))
  /\ (whenTruthy (checkForErrors output) = None ->
      whenTruthy (checkCopilotErrors output) = None ->
      exitCode res <> 0%Z ->
      result = Returned (failed (parseOutput output)
                                (formatCommandError (exitCode res) output)))
  /\ (whenTruthy (checkForErrors output) = None ->
      whenTruthy (checkCopilotErrors output) = None ->
      exitCode res = 0%Z ->
      result = Returned (succeeded (parseOutput output) durationMs))
  /\ (output = before ++ "Error: disk full" ++ rest ->
      startsLine before -> endsLine rest ->
      includes "error:" (toLowerCase before) = false ->
      mentionsKnownFailure output = false ->
      whenTruthy (checkForErrors output) = None ->
      result = Returned (failed EmptyString "disk full")).
Proof.
  intros Hexec output result.
  assert (Hres : result
                 = Returned (classify output (exitCode res) durationMs)).
  { unfold result, execute. now rewrite Hexec. }
  rewrite Hres. unfold classify.
  split; [intros e He; now rewrite He |].
  split; [intros Hj e He; now rewrite Hj, He |].
  split.
  { intros Hj Hc Hx. rewrite Hj, Hc.
    destruct (Z.eqb_spec (exitCode res) 0); [contradiction | reflexivity]. }
  split.
  { intros Hj Hc Hx. rewrite Hj, Hc, Hx. reflexivity. }
  intros Hout Hbefore Hrest Hnone Hkw Hj.
  rewrite Hj. rewrite Hout in Hkw |- *.
  rewrite (checkCopilotErrors_disk_full before rest Hbefore Hrest Hnone Hkw).
  reflexivity.
Qed.

End EngineFacts.

(** ** Concrete runs *)

Module Runs.

Import Js Copilot Tasks Samples.

(** C1 at work: after [getAllTasks(); markComplete("a")] the only task
    read, [b], is not pending, for both reads. *)
Lemma reads_exclude_pending_run :
  let s := run [OpGetAllTasks; OpMarkComplete "a"] freshGrouped in
  set_has (id taskB) (pendingCompletions s) = false
  /\ set_has (id taskB) (pendingCompletions s) = false.
Proof.
  split.
  - exact (proj2 (proj2
             (proj1 (reads_exclude_pending
                       [OpGetAllTasks; OpMarkComplete "a"] freshGrouped)
                    [taskB] _ eq_refl))
             taskB (or_introl eq_refl)).
  - exact (proj2
             (proj2 (reads_exclude_pending
                       [OpGetAllTasks; OpMarkComplete "a"] freshGrouped)
                    1%Z [taskB] _ eq_refl)
             taskB (or_introl eq_refl)).
Defined.

(** C2, against the unamended statement: after a read has filled the cache, a
    sequence of no [markComplete] calls followed by a successful [flush]
    leaves the cache filled. *)
Lemma flush_with_nothing_pending_keeps_cache :
  let s := snd (getAllTasks fresh) in
  flush (markAll [] s) = (Returned tt, s)
  /\ hasPendingWrites s = false
  /\ cachedTasks s = Some [taskA; taskB].
Proof. repeat split. Qed.

(** C2 as amended, at work: after a read, [a] marked twice and [b] once
    are written once each, and the cache is invalidated. *)
Lemma markComplete_then_flush_run :
  let s0 := run [OpGetAllTasks] fresh in
  let s' := snd (flush (markAll ["a"; "b"; "a"] s0)) in
  let written := pendingCompletions (markAll ["a"; "b"; "a"] s0) in
  calls s' = (calls s0 ++ map CallMarkComplete written)%list
  /\ NoDup written
  /\ (forall x, In x written <->
                In x (pendingCompletions s0) \/ In x ["a"; "b"; "a"])
  /\ (forall x, In x ["a"; "b"; "a"] ->
                count_occ string_dec written x = 1)
  /\ pendingCompletions s' = []
  /\ hasPendingWrites s' = false
  /\ (written <> [] -> cachedTasks s' = None)
  /\ (written = [] -> cachedTasks s' = cachedTasks s0).
Proof.
  exact (markComplete_then_flush_writes_once [taskA; taskB] None
           [OpGetAllTasks] ["a"; "b"; "a"]
           (snd (flush (markAll ["a"; "b"; "a"]
                          (run [OpGetAllTasks] fresh))))
           eq_refl).
Defined.

(** C3 at work: the write of the unknown identifier [zz] throws; [a] has
    been written, [b] has not, and all three stay pending. *)
Lemma flush_failure_run :
  let s := markAll ["a"; "zz"; "b"] fresh in
  exists s',
    flush s = (Thrown "Task not found: zz", s')
    /\ inner s' = [completeIn "a" taskA; taskB]
    /\ calls s'
       = (calls s ++ map CallMarkComplete (["a"] ++ ["zz"]))%list
    /\ pendingCompletions s' = pendingCompletions s
    /\ hasPendingWrites s' = true
    /\ cachedTasks s' = cachedTasks s.
Proof.
  exact (flush_failure_keeps_pending
           (markAll ["a"; "zz"; "b"] fresh)
           (snd (writeAll ["a"]
                   (snd (cancelTimer (markAll ["a"; "zz"; "b"] fresh)))))
           ["a"] ["b"] "zz" "Task not found: zz"
           [completeIn "a" taskA; taskB]
           eq_refl eq_refl eq_refl).
Defined.

(** C8, against the unamended statement: the checklist source has no
    [getParallelGroup], and [getParallelGroup] on its wrapper returns 0
    instead of failing. *)
Lemma getParallelGroup_without_method_returns_zero :
  @inner_getParallelGroup (list Task) checklistSource = None
  /\ getParallelGroup "Task A" fresh = (Returned 0%Z, fresh).
Proof. split; reflexivity. Qed.

(** C8 as amended, at work on the checklist source. *)
Lemma optional_capabilities_run :
  getTasksInGroup 1%Z fresh
  = (Thrown "Inner task source does not support getTasksInGroup", fresh)
  /\ getParallelGroup "Task A" fresh = (Returned 0%Z, fresh).
Proof.
  split.
  - exact (proj1 (optional_capabilities fresh 1%Z "Task A") eq_refl).
  - exact (proj2 (optional_capabilities fresh 1%Z "Task A") eq_refl).
Defined.



(** C6, against the unamended statement: both outputs contain the line
    [Error: disk full]; the first also mentions a rate limit, the second
    has an earlier [error:] inside a line, and neither run reports
    [disk full]. *)
Lemma error_line_is_not_always_reported :
  let out1 := "Rate limit reached" ++ nl ++ "Error: disk full" ++ nl in
  let out2 := "Build error: 3 warnings" ++ nl ++ "Error: disk full" ++ nl in
  In "Error: disk full" (split_lines out1)
  /\ @execute (host out1 [] 0) 12 "fix the build" "/repo" None
     = Returned (failed EmptyString msg_rate_limit)
  /\ msg_rate_limit <> "disk full"
  /\ In "Error: disk full" (split_lines out2)
  /\ @execute (host out2 [] 1) 12 "fix the build" "/repo" None
     = Returned (failed EmptyString "3 warnings").
Proof.
  cbv zeta. split; [right; left; reflexivity |].
  split; [reflexivity |].
  split; [discriminate |].
  split; [right; left; reflexivity | reflexivity].
Qed.

(** C6 as amended, at work: the error line after another line, exit
    code 0. *)
Lemma execute_error_line_run :
  let out := ("Working on it..." ++ nl) ++ "Error: disk full" ++ nl ++ "bye" in
  @execute (host out [] 0) 12 "fix the build" "/repo" None
  = Returned (failed EmptyString "disk full").
Proof.
  exact (proj2 (proj2 (proj2 (proj2
           (@execute_error_priority
              (host (("Working on it..." ++ nl)
                     ++ "Error: disk full" ++ nl ++ "bye") [] 0)
              12 "fix the build" "/repo" None
              {| stdout := ("Working on it..." ++ nl)
                           ++ "Error: disk full" ++ nl ++ "bye";
                 stderr := EmptyString; exitCode := 0 |}
              ("Working on it..." ++ nl) (nl ++ "bye")
              eq_refl))))
           eq_refl
           (or_intror (ex_intro _ "Working on it..." eq_refl))
           (or_intror (ex_intro _ "bye" eq_refl))
           eq_refl eq_refl eq_refl).
Defined.


End Runs.

(** ** Numbers: whole values up to [2^53] add without rounding *)

Section NumberFacts.

Import Floats Js.

(** [digits2_pos p] is the number of bits of [p]. *)
Lemma digits2_pos_bounds (p : positive) :
  (2 ^ (Zpos (digits2_pos p) - 1) <= Zpos p < 2 ^ Zpos (digits2_pos p))%Z.
Proof.
  induction p as [p IH|p IH|]; cbn [digits2_pos].
  - rewrite Pos2Z.inj_succ.
    replace (Z.succ (Zpos (digits2_pos p)) - 1)%Z
      with (Z.succ (Zpos (digits2_pos p) - 1)) by lia.
    rewrite !Z.pow_succ_r by lia. lia.
  - rewrite Pos2Z.inj_succ.
    replace (Z.succ (Zpos (digits2_pos p)) - 1)%Z
      with (Z.succ (Zpos (digits2_pos p) - 1)) by lia.
    rewrite !Z.pow_succ_r by lia. lia.
  - simpl. lia.
Qed.

Lemma Zdigits2_unique (n d : Z) :
  (2 ^ (d - 1) <= n < 2 ^ d)%Z -> (0 < n)%Z -> (0 < d)%Z -> Zdigits2 n = d.
Proof.
  intros Hb Hn Hd. destruct n as [|p|p]; try lia.
  cbn [Zdigits2]. pose proof (digits2_pos_bounds p) as Hp.
  set (e := Zpos (digits2_pos p)) in *.
  assert (He : (0 < e)%Z) by (unfold e; lia).
  destruct (Z.lt_trichotomy e d) as [Hlt|[Heq|Hgt]]; [| exact Heq |].
  - assert ((2 ^ e <= 2 ^ (d - 1))%Z) by (apply Z.pow_le_mono_r; lia). lia.
  - assert ((2 ^ d <= 2 ^ (e - 1))%Z) by (apply Z.pow_le_mono_r; lia). lia.
Qed.

Lemma Zdigits2_bounds (n : Z) :
  (0 < n)%Z ->
  (0 < Zdigits2 n)%Z /\ (2 ^ (Zdigits2 n - 1) <= n < 2 ^ Zdigits2 n)%Z.
Proof.
  intros Hn. destruct n as [|p|p]; try lia. cbn [Zdigits2].
  split; [lia | apply digits2_pos_bounds].
Qed.

Lemma Zdigits2_scaled (n k : Z) :
  (0 < n)%Z -> (0 <= k)%Z -> Zdigits2 (n * 2 ^ k) = (Zdigits2 n + k)%Z.
Proof.
  intros Hn Hk. destruct (Zdigits2_bounds n Hn) as [Hd Hb].
  assert (Hp : (0 < 2 ^ k)%Z) by (apply Z.pow_pos_nonneg; lia).
  apply Zdigits2_unique; [| nia | lia].
  replace (Zdigits2 n + k - 1)%Z with ((Zdigits2 n - 1) + k)%Z by lia.
  rewrite !Z.pow_add_r by lia. nia.
Qed.

Lemma shr_1_even (m : Z) :
  (0 < m)%Z ->
  shr_1 {| shr_m := 2 * m; shr_r := false; shr_s := false |}
  = {| shr_m := m; shr_r := false; shr_s := false |}.
Proof. intros Hm. destruct m as [|p|p]; try lia. reflexivity. Qed.

Lemma pow2_double (p : positive) :
  (2 ^ Zpos p~0 = 2 ^ Zpos p * 2 ^ Zpos p)%Z.
Proof.
  replace (Zpos p~0) with (Zpos p + Zpos p)%Z by lia.
  apply Z.pow_add_r; lia.
Qed.

(** Shifting [p] zero bits out to the right loses nothing. *)
Lemma iter_shr_1 (p : positive) (m : Z) :
  (0 < m)%Z ->
  iter_pos shr_1 p {| shr_m := m * 2 ^ Zpos p; shr_r := false; shr_s := false |}
  = {| shr_m := m; shr_r := false; shr_s := false |}.
Proof.
  revert m. induction p as [p IH|p IH|]; intros m Hm; cbn [iter_pos].
  - assert (Hp : (0 < 2 ^ Zpos p)%Z) by (apply Z.pow_pos_nonneg; lia).
    replace (m * 2 ^ Zpos p~1)%Z with (2 * ((m * 2 ^ Zpos p) * 2 ^ Zpos p))%Z.
    + rewrite shr_1_even by nia. rewrite IH by nia. apply IH, Hm.
    + replace (Zpos p~1) with (Z.succ (Zpos p~0)) by lia.
      rewrite Z.pow_succ_r, pow2_double by lia. ring.
  - assert (Hp : (0 < 2 ^ Zpos p)%Z) by (apply Z.pow_pos_nonneg; lia).
    replace (m * 2 ^ Zpos p~0)%Z with ((m * 2 ^ Zpos p) * 2 ^ Zpos p)%Z.
    + rewrite IH by nia. apply IH, Hm.
    + rewrite pow2_double. ring.
  - change (2 ^ 1)%Z with 2%Z. rewrite Z.mul_comm. apply shr_1_even, Hm.
Qed.

Lemma iter_xO (d m : positive) :
  Zpos (Pos.iter xO m d) = (Zpos m * 2 ^ Zpos d)%Z.
Proof.
  induction d as [|d IH] using Pos.peano_ind.
  - simpl. lia.
  - rewrite Pos.iter_succ, Pos2Z.inj_xO, IH, Pos2Z.inj_succ, Z.pow_succ_r by lia.
    ring.
Qed.

Lemma shl_align_value (m : positive) (e e' : Z) :
  (e' <= e)%Z ->
  Zpos (fst (shl_align m e e')) = (Zpos m * 2 ^ (e - e'))%Z
  /\ snd (shl_align m e e') = e'.
Proof.
  intros Hle. unfold shl_align.
  destruct (e' - e)%Z as [|d|d] eqn:Hd; try lia; cbn [fst snd].
  - replace (e - e')%Z with 0%Z by lia. simpl. lia.
  - rewrite iter_xO. replace (e - e')%Z with (Zpos d) by lia. split; reflexivity.
Qed.

Lemma fexp_normal (e : Z) :
  (-1074 <= e)%Z -> fexp prec emax (53 + e) = e.
Proof. intros He. unfold fexp, SpecFloat.emin, prec, emax. lia. Qed.

(** Rounding a mantissa of 53 bits followed by [s] zero bits is exact. *)
Lemma binary_round_aux_exact (q : positive) (s e : Z) :
  (0 <= s)%Z -> Zdigits2 (Zpos q) = 53%Z -> (-1074 <= e <= 971)%Z ->
  binary_round_aux prec emax false (Zpos q * 2 ^ s) (e - s) loc_Exact
  = S754_finite false q e.
Proof.
  intros Hs Hq He.
  assert (Hd : Zdigits2 (Zpos q * 2 ^ s) = (53 + s)%Z)
    by (rewrite Zdigits2_scaled, Hq by lia; reflexivity).
  unfold binary_round_aux, shr_fexp. rewrite Hd.
  replace (53 + s + (e - s))%Z with (53 + e)%Z by lia.
  rewrite fexp_normal by lia. replace (e - (e - s))%Z with s by lia.
  cbn [shr_record_of_loc].
  assert (Hshr : shr {| shr_m := Zpos q * 2 ^ s; shr_r := false;
                        shr_s := false |} (e - s) s
                 = ({| shr_m := Zpos q; shr_r := false; shr_s := false |}, e)).
  { destruct s as [|p|p]; try lia; cbn [shr].
    - f_equal; [f_equal |]; lia.
    - rewrite iter_shr_1 by lia. f_equal. lia. }
  rewrite Hshr.
  cbn [shr_m loc_of_shr_record round_nearest_even]. rewrite Hq.
  rewrite fexp_normal by lia. replace (e - e)%Z with 0%Z by lia.
  cbn [shr shr_record_of_loc shr_m].
  replace (e <=? emax - prec)%Z with true; [reflexivity |].
  symmetry. apply Z.leb_le. unfold emax, prec. lia.
Qed.

(** A whole number [n] with [0 < n < 2^53], given with [k] more zero
    bits, is stored with the 53 bit mantissa [n * 2^(53 - d)], [d] being
    the number of bits of [n]: nothing is rounded away. *)
Lemma binary_normalize_scaled (n k : Z) :
  (0 < n < 2 ^ 53)%Z -> (0 <= k)%Z ->
  binary_normalize prec emax (n * 2 ^ k) (- k) false
  = S754_finite false (Z.to_pos (n * 2 ^ (53 - Zdigits2 n)))
      (Zdigits2 n - 53).
Proof.
  intros [Hn Hlt] Hk.
  destruct (Zdigits2_bounds n Hn) as [Hd Hb].
  set (d := Zdigits2 n) in *.
  assert (Hd53 : (d <= 53)%Z).
  { destruct (Z.le_gt_cases d 53) as [Hle|Hgt]; [exact Hle |].
    assert ((2 ^ 53 <= 2 ^ (d - 1))%Z) by (apply Z.pow_le_mono_r; lia). lia. }
  assert (Hpk : (0 < 2 ^ k)%Z) by (apply Z.pow_pos_nonneg; lia).
  assert (Hpd : (0 < 2 ^ (53 - d))%Z) by (apply Z.pow_pos_nonneg; lia).
  assert (Hdk : Zdigits2 (n * 2 ^ k) = (d + k)%Z)
    by (apply Zdigits2_scaled; lia).
  destruct (n * 2 ^ (53 - d))%Z as [|q|q] eqn:Hq; try nia.
  assert (Hdq : Zdigits2 (Zpos q) = 53%Z).
  { rewrite <- Hq, Zdigits2_scaled by lia. fold d. lia. }
  cbn [Z.to_pos].
  destruct (n * 2 ^ k)%Z as [|m|m] eqn:Hm; try nia.
  cbn [binary_normalize]. unfold binary_round.
  cbn [Zdigits2] in Hdk. rewrite Hdk.
  replace (d + k + - k)%Z with (53 + (d - 53))%Z by lia.
  rewrite fexp_normal by lia.
  destruct (Z.le_gt_cases (d - 53) (- k)) as [Hcase|Hcase].
  - (* a short mantissa is shifted left *)
    destruct (shl_align_value m (- k) (d - 53) Hcase) as [Hv He].
    destruct (shl_align m (- k) (d - 53)) as [mz ez]. cbn [fst snd] in Hv, He.
    subst ez.
    assert (Hmz : Zpos mz = (Zpos q * 2 ^ 0)%Z).
    { rewrite Hv, <- Hm, <- Hq. change (2 ^ 0)%Z with 1%Z.
      rewrite Z.mul_1_r, <- Z.mul_assoc, <- Z.pow_add_r by lia.
      f_equal. f_equal. lia. }
    rewrite Hmz. replace (d - 53)%Z with (d - 53 - 0)%Z at 1 by lia.
    apply binary_round_aux_exact; lia.
  - (* a long one is shifted right, and only zero bits are lost *)
    assert (Hsh : shl_align m (- k) (d - 53) = (m, (- k)%Z)).
    { unfold shl_align.
      destruct (d - 53 - - k)%Z eqn:Hs; try lia; reflexivity. }
    rewrite Hsh.
    assert (Hmz : Zpos m = (Zpos q * 2 ^ (k + d - 53))%Z).
    { rewrite <- Hm, <- Hq, <- Z.mul_assoc, <- Z.pow_add_r by lia.
      f_equal. f_equal. lia. }
    rewrite Hmz. replace (- k)%Z with (d - 53 - (k + d - 53))%Z by lia.
    apply binary_round_aux_exact; lia.
Qed.

Lemma binary_normalize_whole (n : Z) :
  (0 < n < 2 ^ 53)%Z ->
  binary_normalize prec emax n 0 false
  = S754_finite false (Z.to_pos (n * 2 ^ (53 - Zdigits2 n)))
      (Zdigits2 n - 53).
Proof.
  intros Hn. rewrite <- (binary_normalize_scaled n 0) by lia.
  change (2 ^ 0)%Z with 1%Z. rewrite Z.mul_1_r. reflexivity.
Qed.

Lemma Zdigits2_safe (n : Z) :
  (0 < n < 2 ^ 53)%Z -> (0 < Zdigits2 n <= 53)%Z.
Proof.
  intros [Hn Hlt]. destruct (Zdigits2_bounds n Hn) as [Hd Hb].
  split; [exact Hd |].
  destruct (Z.le_gt_cases (Zdigits2 n) 53) as [Hle|Hgt]; [exact Hle |].
  assert ((2 ^ 53 <= 2 ^ (Zdigits2 n - 1))%Z)
    by (apply Z.pow_le_mono_r; lia).
  lia.
Qed.

Lemma binary_normalize_whole_valid (n : Z) :
  (0 <= n < 2 ^ 53)%Z ->
  valid_binary (binary_normalize prec emax n 0 false) = true.
Proof.
  intros [Hn Hlt]. destruct (Z.eq_dec n 0) as [->|Hz]; [reflexivity |].
  rewrite binary_normalize_whole by lia.
  destruct (Zdigits2_safe n ltac:(lia)) as [Hd Hd53].
  assert (Hpd : (0 < 2 ^ (53 - Zdigits2 n))%Z)
    by (apply Z.pow_pos_nonneg; lia).
  cbn [SpecFloat.valid_binary]. unfold bounded, canonical_mantissa.
  apply andb_true_intro. split.
  - apply Z.eqb_eq.
    change (Zpos (digits2_pos (Z.to_pos (n * 2 ^ (53 - Zdigits2 n)))))
      with (Zdigits2 (Zpos (Z.to_pos (n * 2 ^ (53 - Zdigits2 n))))).
    rewrite Z2Pos.id by nia. rewrite Zdigits2_scaled by lia.
    replace (Zdigits2 n + (53 - Zdigits2 n) + (Zdigits2 n - 53))%Z
      with (53 + (Zdigits2 n - 53))%Z by lia.
    apply fexp_normal. lia.
  - apply Z.leb_le. unfold emax, prec. lia.
Qed.

(** On whole numbers whose sum stays below [2^53], the addition of
    doubles is the addition of integers. *)
Lemma SF64add_whole (a b : Z) :
  (0 <= a)%Z -> (0 <= b)%Z -> (a + b < 2 ^ 53)%Z ->
  SF64add (binary_normalize prec emax a 0 false)
          (binary_normalize prec emax b 0 false)
  = binary_normalize prec emax (a + b) 0 false.
Proof.
  intros Ha Hb Hab.
  destruct (Z.eq_dec b 0) as [->|Hbz].
  { rewrite Z.add_0_r. destruct (Z.eq_dec a 0) as [->|Haz]; [reflexivity |].
    rewrite (binary_normalize_whole a) by lia. reflexivity. }
  destruct (Z.eq_dec a 0) as [->|Haz].
  { rewrite Z.add_0_l, (binary_normalize_whole b) by lia. reflexivity. }
  rewrite (binary_normalize_whole a), (binary_normalize_whole b),
    (binary_normalize_whole (a + b)) by lia.
  destruct (Zdigits2_safe a ltac:(lia)) as [Hda Hda53].
  destruct (Zdigits2_safe b ltac:(lia)) as [Hdb Hdb53].
  set (da := Zdigits2 a) in *. set (db := Zdigits2 b) in *.
  assert (Hpa : (0 < 2 ^ (53 - da))%Z) by (apply Z.pow_pos_nonneg; lia).
  assert (Hpb : (0 < 2 ^ (53 - db))%Z) by (apply Z.pow_pos_nonneg; lia).
  unfold SF64add, SFadd. cbv zeta.
  set (ez := Z.min (da - 53) (db - 53)).
  destruct (shl_align_value (Z.to_pos (a * 2 ^ (53 - da))) (da - 53) ez
              ltac:(unfold ez; lia)) as [Hva _].
  destruct (shl_align_value (Z.to_pos (b * 2 ^ (53 - db))) (db - 53) ez
              ltac:(unfold ez; lia)) as [Hvb _].
  cbn [cond_Zopp]. rewrite Hva, Hvb, !Z2Pos.id by nia.
  replace (a * 2 ^ (53 - da) * 2 ^ (da - 53 - ez)
           + b * 2 ^ (53 - db) * 2 ^ (db - 53 - ez))%Z
    with ((a + b) * 2 ^ (- ez))%Z.
  - replace ez with (- - ez)%Z at 2 by lia.
    apply binary_normalize_scaled; unfold ez; lia.
  - rewrite <- !Z.mul_assoc, <- !Z.pow_add_r by (unfold ez; lia).
    replace (53 - da + (da - 53 - ez))%Z with (- ez)%Z by lia.
    replace (53 - db + (db - 53 - ez))%Z with (- ez)%Z by lia.
    ring.
Qed.

(** The same for numbers: below [2^53], [+] is the sum of integers. *)
Lemma numberOfZ_add (a b : Z) :
  (0 <= a)%Z -> (0 <= b)%Z -> (a + b < 2 ^ 53)%Z ->
  plus (numberOfZ a) (numberOfZ b) = numberOfZ (a + b).
Proof.
  intros Ha Hb Hab. unfold plus. apply Prim2SF_inj. rewrite add_spec.
  unfold numberOfZ.
  rewrite !Prim2SF_SF2Prim by (apply binary_normalize_whole_valid; lia).
  apply SF64add_whole; assumption.
Qed.

(** Different whole values below [2^53] are different numbers. *)
Lemma numberOfZ_inj (a b : Z) :
  (0 <= a < 2 ^ 53)%Z -> (0 <= b < 2 ^ 53)%Z ->
  numberOfZ a = numberOfZ b -> a = b.
Proof.
  intros Ha Hb Heq. apply (f_equal Prim2SF) in Heq. unfold numberOfZ in Heq.
  rewrite !Prim2SF_SF2Prim in Heq by (apply binary_normalize_whole_valid; lia).
  destruct (Z.eq_dec a 0) as [->|Haz]; destruct (Z.eq_dec b 0) as [->|Hbz];
    try reflexivity.
  - rewrite (binary_normalize_whole b) in Heq by lia. discriminate.
  - rewrite (binary_normalize_whole a) in Heq by lia. discriminate.
  - rewrite (binary_normalize_whole a), (binary_normalize_whole b) in Heq
      by lia.
    destruct (Zdigits2_safe a ltac:(lia)) as [Hda Hda53].
    destruct (Zdigits2_safe b ltac:(lia)) as [Hdb Hdb53].
    assert (Hpa : (0 < 2 ^ (53 - Zdigits2 a))%Z)
      by (apply Z.pow_pos_nonneg; lia).
    assert (Hpb : (0 < 2 ^ (53 - Zdigits2 b))%Z)
      by (apply Z.pow_pos_nonneg; lia).
    assert (Hma : (0 < a * 2 ^ (53 - Zdigits2 a))%Z)
      by (apply Z.mul_pos_pos; lia).
    assert (Hmb : (0 < b * 2 ^ (53 - Zdigits2 b))%Z)
      by (apply Z.mul_pos_pos; lia).
    injection Heq as Hm He.
    assert (Hd : Zdigits2 a = Zdigits2 b) by lia.
    apply Z2Pos.inj in Hm; [| exact Hma | exact Hmb].
    rewrite Hd in Hm.
    apply (Z.mul_reg_r _ _ (2 ^ (53 - Zdigits2 b))); [lia | exact Hm].
Qed.

End NumberFacts.

(** ** The cached task source: reads, writes and counts in use *)

Section CachedTaskSourceUse.

Import Js Tasks.

Context {B : Type} `{TaskSource B}.

Lemma notPending_same_pending (s s' : Cached B) (all : list Task) :
  pendingCompletions s' = pendingCompletions s ->
  filter (notPending s') all = filter (notPending s) all.
Proof.
  intros Hp. apply filter_ext. intros t. unfold notPending. now rewrite Hp.
Qed.

Lemma getAllTasks_cached (s : Cached B) (all : list Task) :
  cachedTasks s = Some all ->
  getAllTasks s = (Returned (filter (notPending s) all), s).
Proof. intros Hc. unfold_method. now rewrite Hc. Qed.

Lemma getAllTasks_uncached (s : Cached B) :
  cachedTasks s = None ->
  getAllTasks s
  = match inner_getAllTasks (inner s) with
    | (Returned ts, b) =>
        (Returned (filter (notPending s) ts),
         mkCached b (calls s ++ [CallGetAllTasks])%list (Some ts)
           (pendingCompletions s) (flushTimer s) (flushIntervalMs s)
           (isShuttingDown s))
    | (Thrown e, b) =>
        (Thrown e,
         mkCached b (calls s ++ [CallGetAllTasks])%list None
           (pendingCompletions s) (flushTimer s) (flushIntervalMs s)
           (isShuttingDown s))
    end.
Proof.
  intros Hc. unfold_method. rewrite Hc.
  destruct (inner_getAllTasks (inner s)) as [[ts|e] b]; simpl;
    [reflexivity | now rewrite Hc].
Qed.

(** X1.  A read that returned can be repeated at no cost: the second
    [getAllTasks] returns the same list, leaves the instance exactly as
    it is and so makes no call on the wrapped source.  The first read
    makes one call when the cache was empty and none otherwise. *)
Theorem getAllTasks_second_read_is_cached (s s1 : Cached B)
    (tasks : list Task) :
  getAllTasks s = (Returned tasks, s1) ->
  getAllTasks s1 = (Returned tasks, s1)
  /\ calls s1
     = (calls s ++ match cachedTasks s with
                   | Some _ => []
                   | None => [CallGetAllTasks]
                   end)%list.
Proof.
  intros Hget. split.
  - destruct (getAllTasks_returned _ _ _ Hget)
      as [(_ & Hp & _) (all & Hc & Ht)].
    rewrite (getAllTasks_cached s1 all Hc), Ht. f_equal. f_equal.
    now apply notPending_same_pending.
  - destruct (cachedTasks s) as [all|] eqn:Hc.
    + rewrite (getAllTasks_cached s all Hc) in Hget.
      inversion Hget; subst. now rewrite app_nil_r.
    + rewrite (getAllTasks_uncached s Hc) in Hget.
      destruct (inner_getAllTasks (inner s)) as [[ts|e] b];
        inversion Hget; reflexivity.
Qed.

(** X2.  A read throws only when the cache was empty and the read of the
    wrapped source threw; it throws the same error, and the cache stays
    empty, so the next read asks the wrapped source again. *)
Theorem getAllTasks_failure_is_not_cached (s s' : Cached B) (e : string) :
  getAllTasks s = (Thrown e, s') ->
  cachedTasks s = None
  /\ fst (inner_getAllTasks (inner s)) = Thrown e
  /\ cachedTasks s' = None
  /\ pendingCompletions s' = pendingCompletions s
  /\ calls (snd (getAllTasks s'))
     = (calls s ++ [CallGetAllTasks; CallGetAllTasks])%list.
Proof.
  intros Hget. destruct (cachedTasks s) as [all|] eqn:Hc.
  - rewrite (getAllTasks_cached s all Hc) in Hget. discriminate.
  - rewrite (getAllTasks_uncached s Hc) in Hget.
    destruct (inner_getAllTasks (inner s)) as [[ts|e'] b] eqn:Hin;
      inversion Hget; subst; clear Hget.
    repeat split.
    rewrite getAllTasks_uncached by reflexivity. simpl.
    destruct (inner_getAllTasks b) as [[ts|e'] b']; simpl;
      now rewrite <- app_assoc.
Qed.

(** X3.  [flush] with nothing pending is a no-op: it returns, makes no
    call on the wrapped source and keeps the cache; it only cancels the
    timer. *)
Theorem flush_nothing_pending_is_noop (s : Cached B) :
  pendingCompletions s = [] ->
  exists s',
    flush s = (Returned tt, s')
    /\ inner s' = inner s
    /\ calls s' = calls s
    /\ cachedTasks s' = cachedTasks s
    /\ pendingCompletions s' = []
    /\ flushTimer s' = false.
Proof.
  intros Hp. exists (snd (cancelTimer s)).
  destruct (cancelTimer_fields s) as (_ & Hi & Hc & Ht & Hp' & Hf & _).
  rewrite flush_unfold. cbv zeta.
  rewrite Hp', Hp. simpl. repeat split; try assumption; congruence.
Qed.

Lemma cancelTimer_unarmed (s : Cached B) :
  flushTimer s = false -> cancelTimer s = (Returned tt, s).
Proof.
  intros Ht. unfold cancelTimer, bind, get, ret. now rewrite Ht.
Qed.

Lemma flush_returned_state (s s1 : Cached B) :
  flush s = (Returned tt, s1) ->
  pendingCompletions s1 = [] /\ flushTimer s1 = false.
Proof.
  rewrite flush_unfold. cbv zeta.
  destruct (cancelTimer_fields s) as (_ & _ & _ & _ & Hp & Hf & _).
  set (s0 := snd (cancelTimer s)) in *.
  destruct (set_size (pendingCompletions s0) =? 0)%Z eqn:Hsize.
  - apply set_size_zero in Hsize. intros Heq. inversion Heq; subst s1.
    now split.
  - destruct (writeAll_outcome (pendingCompletions s0) s0)
      as [(_ & _ & Ht & _) _].
    destruct (writeAll (pendingCompletions s0) s0) as [[u|e] s2];
      [| discriminate].
    intros Heq. inversion Heq; subst s1. simpl in *.
    split; [reflexivity | congruence].
Qed.

(** X4.  [flush] is safe to call again: after a flush that returned, a
    further flush returns and changes nothing at all, in particular it
    writes nothing to the wrapped source. *)
Theorem flush_again_is_noop (s s1 : Cached B) :
  flush s = (Returned tt, s1) ->
  flush s1 = (Returned tt, s1).
Proof.
  intros Hflush. destruct (flush_returned_state _ _ Hflush) as [Hp Hf].
  rewrite flush_unfold. cbv zeta.
  rewrite (cancelTimer_unarmed s1 Hf). simpl. now rewrite Hp.
Qed.

Lemma set_add_again (x : string) (p : StringSet) :
  set_add x (set_add x p) = set_add x p.
Proof.
  assert (Hin : set_has x (set_add x p) = true).
  { apply set_has_true, set_add_In. now right. }
  unfold set_add at 1. now rewrite Hin.
Qed.

Lemma markComplete_state (x : string) (s : Cached B) :
  markComplete x s
  = (Returned tt,
     mkCached (inner s) (calls s) (cachedTasks s)
       (set_add x (pendingCompletions s))
       (flushTimer s || negb (flushIntervalMs s =? 0)%Z)
       (flushIntervalMs s) (isShuttingDown s)).
Proof.
  unfold markComplete, scheduleFlush, bind, get, modify, ret,
    set_pendingCompletions, set_flushTimer. simpl.
  destruct (flushIntervalMs s =? 0)%Z; simpl.
  - now rewrite orb_false_r.
  - destruct (flushTimer s) eqn:Ht; simpl; rewrite ?Ht; reflexivity.
Qed.

(** X5.  [markComplete] is idempotent and stays in memory: marking the
    same identifier a second time changes nothing, and no call of it
    throws or touches the wrapped source. *)
Theorem markComplete_twice_is_once (x : string) (s : Cached B) :
  markComplete x (snd (markComplete x s)) = markComplete x s
  /\ fst (markComplete x s) = Returned tt
  /\ inner (snd (markComplete x s)) = inner s
  /\ calls (snd (markComplete x s)) = calls s
  /\ set_has x (pendingCompletions (snd (markComplete x s))) = true.
Proof.
  rewrite !markComplete_state. simpl. repeat split.
  - rewrite set_add_again. f_equal. f_equal.
    destruct (flushTimer s), (flushIntervalMs s =? 0)%Z; reflexivity.
  - apply set_has_true, set_add_In. now right.
Qed.

(** X6.  The debounce timer: a sequence of [markComplete] calls arms the
    timer when the interval is not zero and at least one call is made,
    and otherwise leaves it as it was; so with an interval of zero no
    number of calls ever schedules an automatic flush. *)
Theorem markComplete_arms_timer_unless_disabled (ids : list string)
    (s : Cached B) :
  flushTimer (markAll ids s)
  = match ids with
    | [] => flushTimer s
    | _ :: _ => flushTimer s || negb (flushIntervalMs s =? 0)%Z
    end
  /\ flushIntervalMs (markAll ids s) = flushIntervalMs s.
Proof.
  unfold markAll, run.
  assert (Hgen : forall ids s,
    flushTimer (fold_left step (map OpMarkComplete ids) s)
    = match ids with
      | [] => flushTimer s
      | _ :: _ => flushTimer s || negb (flushIntervalMs s =? 0)%Z
      end
    /\ flushIntervalMs (fold_left step (map OpMarkComplete ids) s)
       = flushIntervalMs s).
  { clear ids s. induction ids as [|x ids IH]; intros s; [now split |].
    cbn [map fold_left step]. rewrite markComplete_state. cbn [snd].
    destruct (IH (mkCached (inner s) (calls s) (cachedTasks s)
                    (set_add x (pendingCompletions s))
                    (flushTimer s || negb (flushIntervalMs s =? 0)%Z)
                    (flushIntervalMs s) (isShuttingDown s))) as [Ht Hi].
    rewrite Ht, Hi. simpl. split; [| reflexivity].
    destruct ids; [reflexivity |].
    destruct (flushTimer s), (flushIntervalMs s =? 0)%Z; reflexivity. }
  apply Hgen.
Qed.

(** X7.  The timer callback never throws: a failing automatic flush is
    swallowed.  The timer is unarmed afterwards, and the pending set is
    either flushed and empty or, after a failed write, exactly what it
    was. *)
Theorem onFlushTimer_swallows_failures (s : Cached B) :
  fst (onFlushTimer s) = Returned tt
  /\ flushTimer (snd (onFlushTimer s)) = false
  /\ (pendingCompletions (snd (onFlushTimer s)) = []
      \/ pendingCompletions (snd (onFlushTimer s)) = pendingCompletions s)
  /\ (forall e s', flush (set_flushTimer false s) = (Thrown e, s') ->
        snd (onFlushTimer s) = s'
        /\ pendingCompletions s' = pendingCompletions s
        /\ cachedTasks s' = cachedTasks s).
Proof.
  unfold onFlushTimer, bind, modify. simpl.
  destruct (flush (set_flushTimer false s)) as [[[]|e] s1] eqn:Hflush; simpl.
  - destruct (flush_returned_state _ _ Hflush) as [Hp Hf].
    split; [reflexivity |]. split; [exact Hf |]. split; [now left |].
    intros e s' Heq. discriminate.
  - rename e into e0.
    destruct (flush_thrown_inv _ _ _ Hflush) as (Hp & _ & Hc & _).
    simpl in Hp, Hc.
    assert (Hf : flushTimer s1 = false).
    { rewrite flush_unfold in Hflush. cbv zeta in Hflush.
      destruct (cancelTimer_fields (set_flushTimer false s))
        as (_ & _ & _ & _ & _ & Hf & _).
      set (s0 := snd (cancelTimer (set_flushTimer false s))) in *.
      destruct (set_size (pendingCompletions s0) =? 0)%Z; [discriminate |].
      destruct (writeAll_outcome (pendingCompletions s0) s0)
        as [(_ & _ & Ht & _) _].
      destruct (writeAll (pendingCompletions s0) s0) as [[u|e'] s2];
        [discriminate |].
      inversion Hflush; subst. simpl in Ht. congruence. }
    split; [reflexivity |]. split; [exact Hf |]. split; [now right |].
    intros e' s' Heq. inversion Heq; subst. repeat split; assumption.
Qed.

Lemma countCompleted_unfold (s : Cached B) :
  fst (countCompleted s)
  = match fst (inner_countCompleted (inner s)) with
    | Returned n =>
        Returned (plus n (numberOfZ (set_size (pendingCompletions s))))
    | Thrown e => Thrown e
    end.
Proof.
  unfold_method.
  destruct (inner_countCompleted (inner s)) as [[n|e] b]; reflexivity.
Qed.

Lemma filter_length_split {A : Type} (f g : A -> bool) (l : list A) :
  List.length (filter (fun a => f a && negb (g a)) l)
  = (List.length (filter f l) - List.length (filter g (filter f l)))%nat.
Proof.
  induction l as [|a l IH]; [reflexivity |].
  cbn [filter]. destruct (f a); cbn [andb filter]; [| exact IH].
  destruct (g a); cbn [negb List.length]; rewrite IH.
  - reflexivity.
  - symmetry. apply Nat.sub_succ_l, filter_length_le.
Qed.

(** X8.  What one [markComplete] does to the counts, for a wrapped
    source that reports a whole number of completed tasks, as long as
    the count stays a safe integer (at most [Number.MAX_SAFE_INTEGER]).
    The completed count grows by one when the identifier was not pending
    yet, whether or not any task has that identifier, and stays the same
    when it was pending.  The remaining count of a filled cache drops by
    the number of cached tasks with that identifier that were still
    listed. *)
Theorem markComplete_moves_the_counts (x : string) (s : Cached B)
    (innerCompleted : Z) (all : list Task) :
  fst (inner_countCompleted (inner s))
  = Returned (numberOfZ innerCompleted) ->
  (0 <= innerCompleted)%Z ->
  (innerCompleted + set_size (pendingCompletions s) + 1
   <= MAX_SAFE_INTEGER)%Z ->
  cachedTasks s = Some all ->
  let s1 := snd (markComplete x s) in
  let listed := filter (notPending s) all in
  let completedBefore :=
    (innerCompleted + set_size (pendingCompletions s))%Z in
  fst (countCompleted s) = Returned (numberOfZ completedBefore)
  /\ fst (countCompleted s1)
     = Returned (numberOfZ
                   (completedBefore
                    + if set_has x (pendingCompletions s) then 0 else 1))
  /\ (set_has x (pendingCompletions s) = false ->
      fst (countCompleted s1) <> fst (countCompleted s))
  /\ fst (countRemaining s) = Returned (Z.of_nat (List.length listed))
  /\ fst (countRemaining s1)
     = Returned (Z.of_nat
                   (List.length listed
                    - List.length
                        (filter (fun t => String.eqb (id t) x) listed))).
Proof.
  intros Hinner Hpos Hsafe Hcache s1 listed completedBefore.
  assert (Hs1 : s1 = mkCached (inner s) (calls s) (cachedTasks s)
                       (set_add x (pendingCompletions s))
                       (flushTimer s || negb (flushIntervalMs s =? 0)%Z)
                       (flushIntervalMs s) (isShuttingDown s)).
  { unfold s1. now rewrite markComplete_state. }
  assert (Hsize : (0 <= set_size (pendingCompletions s))%Z)
    by (unfold set_size; lia).
  assert (Hgrow : set_size (set_add x (pendingCompletions s))
                  = (set_size (pendingCompletions s)
                     + if set_has x (pendingCompletions s) then 0 else 1)%Z).
  { unfold set_add, set_size.
    destruct (set_has x (pendingCompletions s)); [lia |].
    rewrite length_app. simpl. lia. }
  unfold MAX_SAFE_INTEGER in Hsafe.
  assert (Hbefore :
            fst (countCompleted s) = Returned (numberOfZ completedBefore)).
  { rewrite countCompleted_unfold, Hinner. f_equal.
    apply numberOfZ_add; lia. }
  assert (Hafter :
            fst (countCompleted s1)
            = Returned (numberOfZ
                          (completedBefore
                           + if set_has x (pendingCompletions s)
                             then 0 else 1))).
  { rewrite countCompleted_unfold, Hs1. cbn [inner pendingCompletions].
    rewrite Hinner, Hgrow. f_equal. unfold completedBefore.
    rewrite <- Z.add_assoc. apply numberOfZ_add;
      destruct (set_has x (pendingCompletions s)); lia. }
  split; [exact Hbefore |].
  split; [exact Hafter |].
  split.
  { intros Hnew Heq. rewrite Hafter, Hbefore, Hnew in Heq.
    injection Heq as Heq. unfold completedBefore in Heq.
    apply numberOfZ_inj in Heq; lia. }
  split.
  { unfold countRemaining, bind, ret.
    now rewrite (getAllTasks_cached s all Hcache). }
  unfold countRemaining, bind, ret.
  assert (Hc1 : cachedTasks s1 = Some all) by (rewrite Hs1; exact Hcache).
  rewrite (getAllTasks_cached s1 all Hc1). simpl. f_equal. f_equal.
  unfold listed. rewrite <- filter_length_split. f_equal.
  apply filter_ext. intros t. unfold notPending. rewrite Hs1. simpl.
  unfold set_add. destruct (set_has x (pendingCompletions s)) eqn:Hx.
  - destruct (set_has (id t) (pendingCompletions s)) eqn:Ht; simpl;
      [reflexivity |].
    destruct (String.eqb_spec (id t) x) as [Heq|]; [| reflexivity].
    congruence.
  - unfold set_has in *. rewrite existsb_app. simpl.
    rewrite orb_false_r, negb_orb. reflexivity.
Qed.

Lemma hd_error_filter {A : Type} (f : A -> bool) (l : list A) :
  hd_error (filter f l) = find f l.
Proof.
  induction l as [|a l IH]; simpl; [reflexivity |].
  destruct (f a); [reflexivity | exact IH].
Qed.

(** X9.  [getNextTask] returns the first task of the cached list, in
    the order of the list, whose identifier is not pending; it returns
    nothing exactly when every cached task is pending (or the list is
    empty). *)
Theorem getNextTask_is_first_not_pending (s s' : Cached B)
    (next : option Task) :
  getNextTask s = (Returned next, s') ->
  exists all,
    cachedTasks s' = Some all
    /\ next = find (notPending s) all
    /\ (next = None <->
        forall t, In t all ->
                  set_has (id t) (pendingCompletions s) = true).
Proof.
  unfold getNextTask, bind, ret.
  destruct (getAllTasks s) as [[tasks|e] s1] eqn:Hget; [| discriminate].
  intros Heq. inversion Heq; subst; clear Heq.
  destruct (getAllTasks_returned _ _ _ Hget) as [_ (all & Hc & Ht)].
  exists all. split; [exact Hc |]. subst tasks.
  rewrite hd_error_filter. split; [reflexivity |].
  split.
  - intros Hnone t Hin.
    pose proof (find_none _ _ Hnone t Hin) as Hnp.
    unfold notPending in Hnp. now apply negb_false_iff in Hnp.
  - intros Hall. destruct (find (notPending s) all) as [t|] eqn:Hfind;
      [| reflexivity].
    apply find_some in Hfind. destruct Hfind as [Hin Hnp].
    unfold notPending in Hnp. rewrite (Hall t Hin) in Hnp. discriminate.
Qed.

(** X10.  [invalidateCache] drops the cache and nothing else: pending
    completions are neither flushed nor lost, and no call is made.  The
    next read asks the wrapped source exactly once and still leaves out
    the pending identifiers. *)
Theorem invalidateCache_forces_one_reread (s : Cached B) :
  let s1 := snd (invalidateCache s) in
  cachedTasks s1 = None
  /\ pendingCompletions s1 = pendingCompletions s
  /\ calls s1 = calls s
  /\ inner s1 = inner s
  /\ calls (snd (getAllTasks s1)) = (calls s ++ [CallGetAllTasks])%list
  /\ (forall ts b, inner_getAllTasks (inner s) = (Returned ts, b) ->
        fst (getAllTasks s1) = Returned (filter (notPending s) ts)).
Proof.
  intros s1. unfold s1, invalidateCache, modify. simpl.
  repeat split.
  - rewrite getAllTasks_uncached by reflexivity. simpl.
    destruct (inner_getAllTasks (inner s)) as [[ts|e] b]; reflexivity.
  - intros ts b Hin. rewrite getAllTasks_uncached by reflexivity. simpl.
    now rewrite Hin.
Qed.

Lemma filter_all_true {A : Type} (f : A -> bool) (l : list A) :
  (forall a, f a = true) -> filter f l = l.
Proof.
  intros Hf. induction l as [|a l IH]; simpl; [reflexivity |].
  now rewrite Hf, IH.
Qed.

(** X11.  After a flush that wrote something, the next read is served
    by the wrapped source again and passes its list on unfiltered: the
    calls on the wrapped source are the writes, one per identifier that
    was pending, followed by one read. *)
Theorem read_after_flush_is_the_wrapped_list (s s1 : Cached B)
    (ts : list Task) (b : B) :
  pendingCompletions s <> [] ->
  flush s = (Returned tt, s1) ->
  inner_getAllTasks (inner s1) = (Returned ts, b) ->
  fst (getAllTasks s1) = Returned ts
  /\ cachedTasks (snd (getAllTasks s1)) = Some ts
  /\ calls (snd (getAllTasks s1))
     = (calls s ++ map CallMarkComplete (pendingCompletions s)
        ++ [CallGetAllTasks])%list.
Proof.
  intros Hne Hflush Hin.
  destruct (flush_returned_state _ _ Hflush) as [Hp1 _].
  assert (Hs1 : cachedTasks s1 = None
                /\ calls s1 = (calls s ++ map CallMarkComplete
                                            (pendingCompletions s))%list).
  { rewrite flush_unfold in Hflush. cbv zeta in Hflush.
    destruct (cancelTimer_fields s) as (_ & _ & Hc & _ & Hp & _ & _).
    set (s0 := snd (cancelTimer s)) in *.
    destruct (set_size (pendingCompletions s0) =? 0)%Z eqn:Hsize.
    - apply set_size_zero in Hsize. congruence.
    - destruct (writeAll_outcome (pendingCompletions s0) s0) as [_ Hout].
      destruct (writeAll (pendingCompletions s0) s0) as [[u|e] s2];
        [| discriminate].
      inversion Hflush; subst s1. simpl in *.
      split; [reflexivity | congruence]. }
  destruct Hs1 as [Hc1 Hcalls1].
  rewrite (getAllTasks_uncached s1 Hc1), Hin. simpl.
  repeat split.
  - f_equal. apply filter_all_true. intros t. unfold notPending.
    now rewrite Hp1.
  - now rewrite Hcalls1, <- app_assoc.
Qed.

(** X12.  The exit handler visits every registered instance: afterwards
    each one is shutting down, none has lost a pending identifier, and
    each wrapped source has received one write per identifier pending on
    its instance, unless that instance had been flushed for shutdown
    before. *)
Theorem exitHandler_flushes_every_instance (p : Process B) :
  Forall (fun s => isShuttingDown s = true) (instances (exitHandler p))
  /\ map pendingCompletions (instances (exitHandler p))
     = map pendingCompletions (instances p)
  /\ map calls (instances (exitHandler p))
     = map (fun s =>
              (calls s ++ if isShuttingDown s then []
                          else map CallMarkComplete (pendingCompletions s))
              %list) (instances p)
  /\ exitHandlersRegistered (exitHandler p) = exitHandlersRegistered p.
Proof.
  unfold exitHandler. simpl. repeat split.
  - apply Forall_map, Forall_forall. intros s _.
    apply flushSync_shutting_down.
  - rewrite map_map. apply map_ext. intros s. apply flushSync_fields.
  - rewrite map_map. apply map_ext. intros s. apply flushSync_calls.
Qed.

(** X13.  The shutdown flush leaves its writes pending, so a normal
    flush that still runs after it writes every identifier a second
    time: the wrapped source sees each pending identifier twice. *)
Theorem flush_after_flushSync_writes_again (s s' : Cached B) :
  isShuttingDown s = false ->
  flush (flushSync s) = (Returned tt, s') ->
  calls s'
  = (calls s ++ map CallMarkComplete (pendingCompletions s)
     ++ map CallMarkComplete (pendingCompletions s))%list.
Proof.
  intros Hd Hflush.
  pose proof (flushSync_calls s) as Hc. rewrite Hd in Hc.
  destruct (flushSync_fields s) as (Hp & _).
  rewrite flush_unfold in Hflush. cbv zeta in Hflush.
  destruct (cancelTimer_fields (flushSync s))
    as (_ & _ & Hc0 & _ & Hp0 & _ & _).
  set (s0 := snd (cancelTimer (flushSync s))) in *.
  destruct (set_size (pendingCompletions s0) =? 0)%Z eqn:Hsize.
  - apply set_size_zero in Hsize. inversion Hflush; subst s'.
    rewrite Hc0, Hc. rewrite Hp0, Hp in Hsize. rewrite Hsize. reflexivity.
  - destruct (writeAll_outcome (pendingCompletions s0) s0) as [_ Hout].
    destruct (writeAll (pendingCompletions s0) s0) as [[u|e] s2];
      [| discriminate].
    inversion Hflush; subst s'. simpl in *.
    rewrite Hout, Hc0, Hc, Hp0, Hp, <- app_assoc. reflexivity.
Qed.

End CachedTaskSourceUse.

(** ** The Copilot engine adapter: the parsed response *)

Section ParseOutputFacts.

Import Js Copilot Chars.

Lemma split_lines_cons (s : string) :
  exists l ls, split_lines s = l :: ls.
Proof.
  induction s as [|c s (l & ls & IH)]; simpl; [now eexists; eexists |].
  destruct (Ascii.eqb c LF); [now eexists; eexists |].
  rewrite IH. now eexists; eexists.
Qed.

Lemma split_lines_notLF (s : string) :
  Forall (fun l => allChars notLF l = true) (split_lines s).
Proof.
  induction s as [|c s IH]; simpl; [repeat constructor |].
  destruct (Ascii.eqb c LF) eqn:Hc; [constructor; [reflexivity | exact IH] |].
  destruct (split_lines s) as [|l ls]; [repeat constructor |].
  - simpl. unfold notLF. now rewrite Hc.
  - inversion IH; subst. constructor; [| assumption].
    simpl. unfold notLF at 1. rewrite Hc. simpl. assumption.
Qed.

Lemma split_lines_line (l : string) :
  allChars notLF l = true -> split_lines l = [l].
Proof.
  induction l as [|c l IH]; simpl; [reflexivity |].
  intros Hl. apply andb_true_iff in Hl. destruct Hl as [Hc Hl].
  unfold notLF in Hc. apply negb_true_iff in Hc. rewrite Hc.
  now rewrite (IH Hl).
Qed.

Lemma split_lines_app (l rest : string) :
  allChars notLF l = true ->
  split_lines (l ++ String LF rest) = l :: split_lines rest.
Proof.
  induction l as [|c l IH]; simpl; [reflexivity |].
  intros Hl. apply andb_true_iff in Hl. destruct Hl as [Hc Hl].
  unfold notLF in Hc. apply negb_true_iff in Hc. rewrite Hc.
  now rewrite (IH Hl).
Qed.

(** Splitting what [join] has joined gives the lines back, when there is
    at least one line and no line holds a line feed. *)
Lemma split_join_lines (ls : list string) :
  ls <> [] ->
  Forall (fun l => allChars notLF l = true) ls ->
  split_lines (join_lines ls) = ls.
Proof.
  induction ls as [|l ls IH]; [congruence |].
  intros _ Hall. inversion Hall as [|? ? Hl Hls]; subst.
  destruct ls as [|l' ls].
  - simpl. now apply split_lines_line.
  - change (join_lines (l :: l' :: ls))
      with (l ++ String LF (join_lines (l' :: ls))).
    rewrite (split_lines_app _ _ Hl), IH; [reflexivity | discriminate |].
    exact Hls.
Qed.

Lemma meaningful_truthy (l : string) :
  meaningful l = true -> truthy l = true.
Proof.
  destruct l; [| reflexivity]. unfold meaningful. simpl. discriminate.
Qed.

Lemma filter_keeps_all {A : Type} (f : A -> bool) (l : list A) :
  Forall (fun a => f a = true) l -> filter f l = l.
Proof.
  induction 1 as [|a l Ha _ IH]; simpl; [reflexivity |].
  now rewrite Ha, IH.
Qed.

Lemma Forall_filter_sub {A : Type} (P : A -> Prop) (f : A -> bool)
    (l : list A) :
  Forall P l -> Forall P (filter f l).
Proof.
  induction 1 as [|a l Ha _ IH]; simpl; [constructor |].
  destruct (f a); [now constructor | exact IH].
Qed.

Lemma Forall_filter_holds {A : Type} (f : A -> bool) (l : list A) :
  Forall (fun a => f a = true) (filter f l).
Proof.
  induction l as [|a l IH]; simpl; [constructor |].
  destruct (f a) eqn:Ha; [now constructor | exact IH].
Qed.

Lemma join_lines_truthy (l : string) (ls : list string) :
  truthy l = true -> truthy (join_lines (l :: ls)) = true.
Proof.
  destruct l; [discriminate |]. intros _. destruct ls; reflexivity.
Qed.

(** The parsed response is never empty. *)
Lemma parseOutput_nonempty (output : string) :
  truthy (parseOutput output) = true.
Proof.
  unfold parseOutput. cbv zeta.
  destruct (truthy (join_lines
                      (filter meaningful
                         (filter truthy (split_lines output))))) eqn:Ht;
    [exact Ht | reflexivity].
Qed.

(** X14.  The parsed response is never empty, every line of it is a
    meaningful line (not blank, no prompt, no status line), and parsing
    it again gives it back unchanged. *)
Theorem parseOutput_is_stable (output : string) :
  truthy (parseOutput output) = true
  /\ Forall (fun l => meaningful l = true)
            (split_lines (parseOutput output))
  /\ parseOutput (parseOutput output) = parseOutput output.
Proof.
  set (kept := filter meaningful (filter truthy (split_lines output))).
  assert (Hparsed :
    parseOutput output
    = if truthy (join_lines kept) then join_lines kept
      else "Task completed") by reflexivity.
  assert (Hmean : Forall (fun l => meaningful l = true) kept)
    by apply Forall_filter_holds.
  assert (Hlf : Forall (fun l => allChars notLF l = true) kept).
  { unfold kept. do 2 apply Forall_filter_sub. apply split_lines_notLF. }
  rewrite Hparsed. clear Hparsed.
  destruct kept as [|l ls] eqn:Hkept.
  - simpl. split; [reflexivity |]. split; [| reflexivity].
    repeat constructor.
  - assert (Hl : truthy l = true).
    { inversion Hmean; subst. now apply meaningful_truthy. }
    rewrite (join_lines_truthy l ls Hl).
    assert (Hsplit : split_lines (join_lines (l :: ls)) = l :: ls)
      by (apply split_join_lines; [discriminate | exact Hlf]).
    split; [now apply join_lines_truthy |].
    split; [now rewrite Hsplit |].
    unfold parseOutput. cbv zeta. rewrite Hsplit.
    assert (Htruthy : filter truthy (l :: ls) = l :: ls).
    { apply filter_keeps_all.
      eapply Forall_impl; [| exact Hmean]. apply meaningful_truthy. }
    rewrite Htruthy, (filter_keeps_all meaningful (l :: ls) Hmean).
    now rewrite (join_lines_truthy l ls Hl).
Qed.

End ParseOutputFacts.

(** ** The Copilot engine adapter: the text of a detected error *)

Section ErrorTextFacts.

Import Js Copilot Chars.

Lemma span_dots_ordinary (s : string) :
  allChars ordinary (fst (span_dots s)) = true.
Proof.
  induction s as [|c s IH]; [reflexivity |].
  cbn [span_dots]. destruct (is_line_terminator c) eqn:Hc; [reflexivity |].
  destruct (span_dots s) as [g rest]. cbn [fst allChars] in *.
  unfold ordinary at 1. now rewrite Hc, IH.
Qed.

Lemma match_group_eol_ordinary (s g : string) :
  match_group_eol s = Some g -> allChars ordinary g = true.
Proof.
  unfold match_group_eol. pose proof (span_dots_ordinary s) as Hs.
  destruct (span_dots s) as [g' rest]. cbn [fst] in Hs.
  destruct (isEmpty g'); [discriminate |].
  destruct rest as [|c rest]; [| destruct (Ascii.eqb c LF)];
    intros Heq; inversion Heq; subst; try assumption.
Qed.

Lemma match_ws_group_eol_ordinary (s g : string) :
  match_ws_group_eol s = Some g -> allChars ordinary g = true.
Proof.
  induction s as [|c s IH]; cbn [match_ws_group_eol].
  - apply match_group_eol_ordinary.
  - destruct (is_white_space c); [| apply match_group_eol_ordinary].
    destruct (match_ws_group_eol s) as [g'|].
    + intros Heq. inversion Heq; subst. now apply IH.
    + apply match_group_eol_ordinary.
Qed.

Lemma match_error_line_ordinary (s g : string) :
  match_error_line s = Some g -> allChars ordinary g = true.
Proof.
  induction s as [|c s IH].
  - cbn. discriminate.
  - rewrite match_error_line_cons.
    destruct (match_literal_ci "error:" (String c s)) as [rest|].
    + destruct (match_ws_group_eol rest) as [g'|] eqn:Hm.
      * intros Heq. inversion Heq; subst.
        now apply (match_ws_group_eol_ordinary rest).
      * exact IH.
    + exact IH.
Qed.

Lemma allChars_trimStart (p : ascii -> bool) (s : string) :
  allChars p s = true -> allChars p (trimStart s) = true.
Proof.
  induction s as [|c s IH]; [trivial |].
  cbn [trimStart]. destruct (is_white_space c); [| trivial].
  cbn [allChars]. intros Hs. apply andb_true_iff in Hs. now apply IH.
Qed.

Lemma allChars_trimEnd (p : ascii -> bool) (s : string) :
  allChars p s = true -> allChars p (trimEnd s) = true.
Proof.
  induction s as [|c s IH]; [trivial |].
  cbn [trimEnd allChars]. intros Hs. apply andb_true_iff in Hs.
  destruct Hs as [Hc Hs].
  destruct (is_white_space c && isEmpty (trimEnd s)); [reflexivity |].
  cbn [allChars]. now rewrite Hc, IH.
Qed.

Lemma trimEnd_again (s : string) : trimEnd (trimEnd s) = trimEnd s.
Proof.
  induction s as [|c s IH]; [reflexivity |].
  cbn [trimEnd].
  destruct (is_white_space c && isEmpty (trimEnd s)) eqn:Hc;
    [reflexivity |].
  cbn [trimEnd]. now rewrite IH, Hc.
Qed.

Lemma trimStart_head (s : string) :
  trimStart s = EmptyString
  \/ exists c t, trimStart s = String c t /\ is_white_space c = false.
Proof.
  induction s as [|c s IH]; [now left |].
  cbn [trimStart]. destruct (is_white_space c) eqn:Hc; [exact IH |].
  right. now exists c, s.
Qed.

Lemma trim_again (s : string) : trim (trim s) = trim s.
Proof.
  unfold trim.
  destruct (trimStart_head s) as [-> | (c & t & -> & Hc)]; [reflexivity |].
  cbn [trimEnd]. rewrite Hc. cbn [andb trimStart]. rewrite Hc.
  cbn [trimEnd]. rewrite Hc. cbn [andb]. now rewrite trimEnd_again.
Qed.

(** X15.  Whatever [checkCopilotErrors] reports is fit for one line of
    display: the message holds no line feed and no carriage return, and
    has no white space at either end. *)
Theorem checkCopilotErrors_message_is_one_trimmed_line
    (output m : string) :
  checkCopilotErrors output = Some m ->
  allChars ordinary m = true /\ trim m = m.
Proof.
  unfold checkCopilotErrors. cbv zeta.
  destruct (includes "no authentication" (toLowerCase output)
            || includes "not authenticated" (toLowerCase output));
    [intros Heq; inversion Heq; split; reflexivity |].
  destruct (includes "rate limit" (toLowerCase output)
            || includes "too many requests" (toLowerCase output));
    [intros Heq; inversion Heq; split; reflexivity |].
  destruct (includes "network error" (toLowerCase output)
            || includes "connection refused" (toLowerCase output));
    [intros Heq; inversion Heq; split; reflexivity |].
  destruct (startsWith "error:" (toLowerCase (trim output))
            || includes (String LF "error:") (toLowerCase output));
    [| discriminate].
  destruct (match_error_line output) as [g|] eqn:Hg;
    intros Heq; inversion Heq; subst; [| split; reflexivity].
  split; [| apply trim_again].
  unfold trim. apply allChars_trimEnd, allChars_trimStart.
  now apply (match_error_line_ordinary output).
Qed.

Lemma lower_char_white_space (c : ascii) :
  is_white_space (lower_char c) = is_white_space c.
Proof. destruct c as [[] [] [] [] [] [] [] []]; reflexivity. Qed.

Lemma toLowerCase_trimStart (s : string) :
  toLowerCase (trimStart s) = trimStart (toLowerCase s).
Proof.
  induction s as [|c s IH]; [reflexivity |].
  cbn [trimStart toLowerCase]. rewrite lower_char_white_space.
  destruct (is_white_space c); [exact IH | reflexivity].
Qed.

Lemma toLowerCase_isEmpty (s : string) :
  isEmpty (toLowerCase s) = isEmpty s.
Proof. destruct s; reflexivity. Qed.

Lemma toLowerCase_trimEnd (s : string) :
  toLowerCase (trimEnd s) = trimEnd (toLowerCase s).
Proof.
  induction s as [|c s IH]; [reflexivity |].
  cbn [trimEnd toLowerCase].
  rewrite lower_char_white_space, <- IH, toLowerCase_isEmpty.
  destruct (is_white_space c && isEmpty (trimEnd s)); reflexivity.
Qed.

Lemma toLowerCase_trim (s : string) :
  toLowerCase (trim s) = trim (toLowerCase s).
Proof.
  unfold trim. now rewrite toLowerCase_trimEnd, toLowerCase_trimStart.
Qed.

(** X16.  Detection does not look at letter case: two outputs that
    differ only in the case of their letters are both reported or both
    passed, and when one of the authentication, rate-limit or network
    keywords occurs they get the very same message. *)
Theorem checkCopilotErrors_ignores_case (output1 output2 : string) :
  toLowerCase output1 = toLowerCase output2 ->
  (checkCopilotErrors output1 = None <-> checkCopilotErrors output2 = None)
  /\ (mentionsKnownFailure output1 = true ->
      checkCopilotErrors output1 = checkCopilotErrors output2).
Proof.
  intros Hlow. unfold checkCopilotErrors, mentionsKnownFailure. cbv zeta.
  rewrite !toLowerCase_trim, <- Hlow.
  destruct (includes "no authentication" (toLowerCase output1)
            || includes "not authenticated" (toLowerCase output1));
    [split; [split; discriminate | reflexivity] |].
  cbn [orb].
  destruct (includes "rate limit" (toLowerCase output1)
            || includes "too many requests" (toLowerCase output1));
    [split; [split; discriminate | reflexivity] |].
  cbn [orb].
  destruct (includes "network error" (toLowerCase output1)
            || includes "connection refused" (toLowerCase output1));
    [split; [split; discriminate | reflexivity] |].
  split; [| discriminate].
  destruct (startsWith "error:" (trim (toLowerCase output1))
            || includes (String LF "error:") (toLowerCase output1));
    [| tauto].
  destruct (match_error_line output1), (match_error_line output2);
    split; discriminate.
Qed.

End ErrorTextFacts.

(** ** The Copilot engine adapter: results in use *)

Section EngineUse.

Import Js Copilot Chars.

Context `{Base}.

Lemma blank_is_white_space (ws : string) :
  allChars blank ws = true -> allChars is_white_space ws = true.
Proof.
  induction ws as [|c ws IH]; [trivial |].
  cbn [allChars]. intros Hs. apply andb_true_iff in Hs.
  destruct Hs as [Hc Hs]. unfold blank in Hc.
  apply andb_true_iff in Hc. destruct Hc as [Hc _].
  now rewrite Hc, IH.
Qed.

Lemma toLowerCase_white_space (ws : string) :
  allChars is_white_space ws = true ->
  allChars is_white_space (toLowerCase ws) = true.
Proof.
  induction ws as [|c ws IH]; [trivial |].
  cbn [allChars toLowerCase]. rewrite lower_char_white_space.
  intros Hs. apply andb_true_iff in Hs. destruct Hs as [Hc Hs].
  now rewrite Hc, IH.
Qed.

(** A word that starts with a letter does not occur in white space. *)
Lemma includes_in_white_space (k : ascii) (word ws : string) :
  is_white_space k = false ->
  allChars is_white_space ws = true ->
  includes (String k word) ws = false.
Proof.
  intros Hk. induction ws as [|c ws IH]; [reflexivity |].
  cbn [allChars]. intros Hs. apply andb_true_iff in Hs.
  destruct Hs as [Hc Hs].
  rewrite includes_cons, startsWith_cons, (IH Hs), orb_false_r.
  destruct (Ascii.eqb k c) eqn:Hkc; [| reflexivity].
  apply Ascii.eqb_eq in Hkc. congruence.
Qed.

Lemma no_keyword_in_blank_error (ws : string) :
  allChars blank ws = true ->
  mentionsKnownFailure ("Error:" ++ ws) = false.
Proof.
  intros Hws. apply blank_is_white_space, toLowerCase_white_space in Hws.
  unfold mentionsKnownFailure. cbv zeta.
  change (toLowerCase ("Error:" ++ ws)) with ("error:" ++ toLowerCase ws).
  set (lws := toLowerCase ws) in *.
  cbn [append]. repeat rewrite includes_cons.
  rewrite !(includes_in_white_space _ _ lws) by (reflexivity || exact Hws).
  reflexivity.
Qed.

(** The greedy white-space star of the pattern gives back the last
    blank so that the group has its one character. *)
Lemma match_ws_group_eol_blank (ws : string) :
  ws <> EmptyString ->
  allChars blank ws = true ->
  exists c, is_white_space c = true
            /\ match_ws_group_eol ws = Some (str1 c).
Proof.
  induction ws as [|c ws IH]; [congruence |].
  intros _ Hs. cbn [allChars] in Hs. apply andb_true_iff in Hs.
  destruct Hs as [Hc Hs]. unfold blank in Hc.
  apply andb_true_iff in Hc. destruct Hc as [Hw Hl].
  apply negb_true_iff in Hl.
  cbn [match_ws_group_eol]. rewrite Hw.
  destruct ws as [|d ws].
  - exists c. split; [exact Hw |].
    cbn [match_ws_group_eol]. unfold match_group_eol.
    cbn [span_dots]. rewrite Hl. reflexivity.
  - destruct (IH ltac:(discriminate) Hs) as (c' & Hc' & ->).
    now exists c'.
Qed.

Lemma trim_white_space_char (c : ascii) :
  is_white_space c = true -> trim (str1 c) = EmptyString.
Proof.
  intros Hc. unfold trim, str1. cbn [trimStart]. now rewrite Hc.
Qed.

Lemma checkCopilotErrors_blank_error (ws : string) :
  ws <> EmptyString ->
  allChars blank ws = true ->
  checkCopilotErrors ("Error:" ++ ws) = Some EmptyString.
Proof.
  intros Hne Hws.
  pose proof (no_keyword_in_blank_error ws Hws) as Hkw.
  unfold mentionsKnownFailure in Hkw. cbv zeta in Hkw.
  do 5 (apply orb_false_iff in Hkw; destruct Hkw as [Hkw ?]).
  unfold checkCopilotErrors. cbv zeta.
  repeat match goal with
         | Hf : ?b = false |- context [?b] => rewrite Hf
         end.
  cbn [orb].
  assert (Hgeneric :
    startsWith "error:" (toLowerCase (trim ("Error:" ++ ws))) = true)
    by reflexivity.
  rewrite Hgeneric. cbn [orb].
  destruct (match_ws_group_eol_blank ws Hne Hws) as (c & Hc & Hm).
  assert (Hmatch : match_error_line ("Error:" ++ ws) = Some (str1 c)).
  { change ("Error:" ++ ws) with (String "E" ("rror:" ++ ws)).
    rewrite match_error_line_cons.
    change (match_literal_ci "error:" (String "E" ("rror:" ++ ws)))
      with (Some ws).
    cbv beta iota. now rewrite Hm. }
  rewrite Hmatch. cbv beta iota.
  now rewrite (trim_white_space_char c Hc).
Qed.

(** X17.  An error line without a message is not treated as an error:
    when the output is [Error:] followed by blanks only, the plain-text
    check yields the empty message, which counts as no error, and with
    exit code 0 [execute] reports a success. *)
Theorem blank_error_line_is_reported_as_success (durationMs : Z)
    (prompt workDir : string) (options : option EngineOptions)
    (res : ExecResult) (ws : string) :
  execCommand cliCommand (buildArgs isWindows prompt options) workDir
  = Returned res ->
  stdout res ++ stderr res = "Error:" ++ ws ->
  ws <> EmptyString ->
  allChars blank ws = true ->
  whenTruthy (checkForErrors ("Error:" ++ ws)) = None ->
  exitCode res = 0%Z ->
  checkCopilotErrors ("Error:" ++ ws) = Some EmptyString
  /\ execute durationMs prompt workDir options
     = Returned (succeeded (parseOutput ("Error:" ++ ws)) durationMs).
Proof.
  intros Hexec Hout Hne Hws Hjson Hcode.
  pose proof (checkCopilotErrors_blank_error ws Hne Hws) as Hplain.
  split; [exact Hplain |].
  unfold execute. rewrite Hexec, Hout. unfold classify.
  now rewrite Hjson, Hplain, Hcode.
Qed.

(** X18.  The shape of every result of [execute]: token counts are
    always zero; a success has a non-empty response, no error, and a
    cost annotation exactly when the measured duration is positive; a
    failure never has a cost annotation. *)
Theorem execute_result_shape (durationMs : Z) (prompt workDir : string)
    (options : option EngineOptions) (r : AIResult) :
  execute durationMs prompt workDir options = Returned r ->
  inputTokens r = 0%Z
  /\ outputTokens r = 0%Z
  /\ (success r = true ->
      truthy (response r) = true
      /\ error r = None
      /\ (cost r <> None <-> (0 < durationMs)%Z))
  /\ (success r = false -> cost r = None).
Proof.
  unfold execute.
  destruct (execCommand cliCommand (buildArgs isWindows prompt options)
              workDir) as [res|e]; [| discriminate].
  intros Heq. inversion Heq; subst r; clear Heq.
  destruct (classify_cases (stdout res ++ stderr res) (exitCode res)
              durationMs)
    as [(e & _ & ->)
       | [(_ & e & _ & ->) | [(_ & _ & _ & ->) | (_ & _ & _ & ->)]]];
    cbn; repeat split; try discriminate.
  - apply parseOutput_nonempty.
  - destruct (Z.ltb_spec 0 durationMs); [trivial | congruence].
  - destruct (Z.ltb_spec 0 durationMs); [discriminate | lia].
Qed.

End EngineUse.

(** ** The telemetry webhook *)

Section TelemetryFacts.

Import Js Telemetry.

Variable Value : Type.

(** X19.  Privacy of the payload.  At the anonymous level the payload
    has no details, and it is the payload the same session would give
    with its prompt, response and file paths removed, at any level.  The
    session part of a payload never carries those three keys.  Details
    are present exactly at the full level for a session that has at
    least one of the keys. *)
Theorem buildPayload_keeps_anonymous_private (now : string)
    (session : Session Value) (level : TelemetryLevel) :
  details (buildPayload now session Anonymous) = None
  /\ buildPayload now session Anonymous
     = buildPayload now (withoutDetails session) level
  /\ isFullSession (payload_session (buildPayload now session level))
     = false
  /\ (details (buildPayload now session level) <> None <->
      level = Full /\ isFullSession session = true).
Proof.
  split; [reflexivity |].
  split; [destruct level; reflexivity |].
  split; [destruct level; [reflexivity |];
          cbn; destruct (isFullSession session); reflexivity |].
  destruct level; cbn.
  - split; [congruence | intros [Hl _]; discriminate].
  - destruct (isFullSession session); cbn; split;
      try discriminate; try congruence; auto.
    intros [_ Hf]. discriminate.
Qed.

Lemma failureLog_is_error (error : Raised) (message : string) :
  failureLog error <> LogDebug message.
Proof.
  destruct error as [name m|v]; cbn; [| discriminate].
  destruct (String.eqb name "AbortError"); discriminate.
Qed.

(** X20.  One call of the sender logs exactly one line and makes at most
    one request.  Without a configured address (no config, no key, the
    empty string or white space only) it makes none.  Otherwise it makes
    one POST of the payload to the address as configured, untrimmed, and
    does not retry; the line logged is the success line exactly when
    that request came back with an ok response. *)
Theorem sendTelemetryWebhook_sends_at_most_once (now : string)
    (fetch : Request Value -> Fetched) (session : Session Value)
    (config : option RalphyConfig) (level : option TelemetryLevel) :
  let result := sendTelemetryWebhook now fetch session config level in
  List.length (fst result) = 1%nat
  /\ (notConfigured (configuredUrl config) = true ->
      result
      = ([LogDebug "No telemetry webhook configured, skipping"], []))
  /\ (forall u,
        configuredUrl config = Some u ->
        notConfigured (Some u) = false ->
        let request :=
          {| url := u; method := "POST";
             contentType := "application/json";
             body := buildPayload now session
                       (match level with
                        | Some l => l
                        | None => Anonymous
                        end) |} in
        snd result = [request]
        /\ (fst result
            = [LogDebug ("Telemetry webhook sent successfully to " ++ u)]
            <-> exists r, fetch request = Resolved r /\ ok r = true)).
Proof.
  intros result. unfold result, sendTelemetryWebhook. cbv zeta.
  destruct (configuredUrl config) as [u|]; [| repeat split; discriminate].
  destruct (notConfigured (Some u)) eqn:Hnc.
  { split; [reflexivity |]. split; [reflexivity |].
    intros u' Heq Hnc'. inversion Heq; subst u'. congruence. }
  set (request := {| url := u; method := "POST";
                     contentType := "application/json";
                     body := buildPayload now session
                               (match level with
                                | Some l => l
                                | None => Anonymous
                                end) |}).
  destruct (fetch request) as [r|error] eqn:Hfetch.
  - destruct (ok r) eqn:Hok; cbn.
    + split; [reflexivity |]. split; [discriminate |].
      intros u' Heq _. inversion Heq; subst u'. fold request.
      rewrite Hfetch. split; [reflexivity |].
      split; [intros _; now exists r | reflexivity].
    + split; [reflexivity |]. split; [discriminate |].
      intros u' Heq _. inversion Heq; subst u'. fold request.
      rewrite Hfetch. split; [reflexivity |].
      split; [discriminate |].
      intros (r' & Hr' & Hok'). inversion Hr'; subst r'. congruence.
  - cbn. split; [reflexivity |]. split; [discriminate |].
    intros u' Heq _. inversion Heq; subst u'. fold request.
    rewrite Hfetch. split; [reflexivity |].
    split.
    + intros Hlog. inversion Hlog as [Hl].
      now apply failureLog_is_error in Hl.
    + intros (r' & Hr' & _). discriminate.
Qed.

End TelemetryFacts.

(** ** More concrete runs *)

Module MoreRuns.

Import Js Copilot Chars Tasks Samples MoreSamples.

(** X1 at work: the first read of a fresh checklist instance makes one
    call, the second none. *)
Lemma getAllTasks_second_read_run :
  let s1 := snd (getAllTasks fresh) in
  getAllTasks s1 = (Returned [taskA; taskB], s1)
  /\ calls s1 = (calls fresh ++ [CallGetAllTasks])%list.
Proof.
  exact (getAllTasks_second_read_is_cached fresh (snd (getAllTasks fresh))
           [taskA; taskB] eq_refl).
Defined.

(** X2 at work: the task file is missing. *)
Lemma getAllTasks_failure_run :
  let s' := snd (getAllTasks offline) in
  cachedTasks offline = None
  /\ fst (inner_getAllTasks (inner offline))
     = Thrown "ENOENT: no such file"
  /\ cachedTasks s' = None
  /\ pendingCompletions s' = pendingCompletions offline
  /\ calls (snd (getAllTasks s'))
     = (calls offline ++ [CallGetAllTasks; CallGetAllTasks])%list.
Proof.
  exact (getAllTasks_failure_is_not_cached offline
           (snd (getAllTasks offline)) "ENOENT: no such file" eq_refl).
Defined.

(** X3 at work: a flush right after a read. *)
Lemma flush_nothing_pending_run :
  let s := snd (getAllTasks fresh) in
  exists s',
    flush s = (Returned tt, s')
    /\ inner s' = inner s
    /\ calls s' = calls s
    /\ cachedTasks s' = cachedTasks s
    /\ pendingCompletions s' = []
    /\ flushTimer s' = false.
Proof.
  exact (flush_nothing_pending_is_noop (snd (getAllTasks fresh)) eq_refl).
Defined.

(** X4 at work: two flushes after marking [a]. *)
Lemma flush_again_run :
  let s1 := snd (flush (markAll ["a"] fresh)) in
  flush s1 = (Returned tt, s1).
Proof.
  exact (flush_again_is_noop (markAll ["a"] fresh)
           (snd (flush (markAll ["a"] fresh))) eq_refl).
Defined.

(** X7 at work: the automatic flush meets the unknown identifier [zz];
    nothing is thrown and [zz] stays pending. *)
Lemma onFlushTimer_run :
  let s := markAll ["zz"] fresh in
  let s' := snd (flush (set_flushTimer false s)) in
  snd (onFlushTimer s) = s'
  /\ pendingCompletions s' = pendingCompletions s
  /\ cachedTasks s' = cachedTasks s.
Proof.
  exact (proj2 (proj2 (proj2
           (onFlushTimer_swallows_failures (markAll ["zz"] fresh))))
           "Task not found: zz"
           (snd (flush (set_flushTimer false (markAll ["zz"] fresh))))
           eq_refl).
Defined.

(** X8 at work: with one task done in the file and [b] pending, marking
    [a] moves the completed count from 2 to 3 and the remaining count
    from 1 to 0. *)
Lemma markComplete_counts_run :
  let s1 := snd (markComplete "a" started) in
  fst (countCompleted started) = Returned (numberOfZ 2)
  /\ fst (countCompleted s1) = Returned (numberOfZ 3)
  /\ (set_has "a" (pendingCompletions started) = false ->
      fst (countCompleted s1) <> fst (countCompleted started))
  /\ fst (countRemaining started) = Returned 1%Z
  /\ fst (countRemaining s1) = Returned 0%Z.
Proof.
  exact (markComplete_moves_the_counts "a" started 1%Z [taskA; taskB]
           eq_refl ltac:(vm_compute; discriminate)
           ltac:(vm_compute; discriminate) eq_refl).
Defined.

(** Past the safe integers the bound of X8 is needed: over a tally that
    stands at [2^53], marking a new identifier leaves [countCompleted]
    at [2^53]. *)
Lemma countCompleted_stalls_at_two_to_the_53 :
  let s := tallyAt (2 ^ 53) in
  let s1 := snd (markComplete "a" s) in
  set_has "a" (pendingCompletions s) = false
  /\ fst (countCompleted s) = Returned (numberOfZ (2 ^ 53))
  /\ fst (countCompleted s1) = Returned (numberOfZ (2 ^ 53)).
Proof. repeat split. Qed.

(** X9 at work: with [a] pending the next task is [b]. *)
Lemma getNextTask_run :
  let s := markAll ["a"] fresh in
  exists all,
    cachedTasks (snd (getNextTask s)) = Some all
    /\ Some taskB = find (notPending s) all
    /\ (Some taskB = None <->
        forall t, In t all ->
                  set_has (id t) (pendingCompletions s) = true).
Proof.
  exact (getNextTask_is_first_not_pending (markAll ["a"] fresh)
           (snd (getNextTask (markAll ["a"] fresh))) (Some taskB) eq_refl).
Defined.

(** X11 at work: after flushing [a], the read returns what the checklist
    returns, [b] alone. *)
Lemma read_after_flush_run :
  let s := markAll ["a"] fresh in
  let s1 := snd (flush s) in
  fst (getAllTasks s1) = Returned [taskB]
  /\ cachedTasks (snd (getAllTasks s1)) = Some [taskB]
  /\ calls (snd (getAllTasks s1))
     = (calls s ++ map CallMarkComplete (pendingCompletions s)
        ++ [CallGetAllTasks])%list.
Proof.
  exact (read_after_flush_is_the_wrapped_list (markAll ["a"] fresh)
           (snd (flush (markAll ["a"] fresh))) [taskB]
           [completeIn "a" taskA; taskB]
           ltac:(discriminate) eq_refl eq_refl).
Defined.

(** X13 at work: [a] is written by the shutdown flush and again by the
    flush after it. *)
Lemma flush_after_flushSync_run :
  let s := markAll ["a"] fresh in
  calls (snd (flush (flushSync s)))
  = (calls s ++ map CallMarkComplete (pendingCompletions s)
     ++ map CallMarkComplete (pendingCompletions s))%list.
Proof.
  exact (flush_after_flushSync_writes_again (markAll ["a"] fresh)
           (snd (flush (flushSync (markAll ["a"] fresh))))
           eq_refl eq_refl).
Defined.

(** X15 at work: the message of an error line with spaces around it. *)
Lemma checkCopilotErrors_message_run :
  allChars ordinary "quota  exceeded" = true
  /\ trim "quota  exceeded" = "quota  exceeded".
Proof.
  exact (checkCopilotErrors_message_is_one_trimmed_line
           ("ERROR:   quota  exceeded  " ++ nl ++ "see the log")
           "quota  exceeded" eq_refl).
Defined.

(** X16 at work: the same failure in capitals. *)
Lemma checkCopilotErrors_ignores_case_run :
  (checkCopilotErrors "RATE LIMIT reached" = None <->
   checkCopilotErrors "rate limit reached" = None)
  /\ (mentionsKnownFailure "RATE LIMIT reached" = true ->
      checkCopilotErrors "RATE LIMIT reached"
      = checkCopilotErrors "rate limit reached").
Proof.
  exact (checkCopilotErrors_ignores_case "RATE LIMIT reached"
           "rate limit reached" eq_refl).
Defined.

(** X17 at work: the tool prints [Error:] and two spaces, and exits
    with code 0. *)
Lemma blank_error_line_run :
  checkCopilotErrors ("Error:" ++ "  ") = Some EmptyString
  /\ @execute (host "Error:  " [] 0) 12 "fix the build" "/repo" None
     = Returned (succeeded (parseOutput ("Error:" ++ "  ")) 12).
Proof.
  exact (@blank_error_line_is_reported_as_success (host "Error:  " [] 0)
           12 "fix the build" "/repo" None
           {| stdout := "Error:  "; stderr := EmptyString; exitCode := 0 |}
           "  " eq_refl eq_refl ltac:(discriminate) eq_refl eq_refl
           eq_refl).
Defined.

(** X18 at work: a run that succeeds after 12 ms. *)
Lemma execute_result_shape_run :
  let r := succeeded (parseOutput "done") 12 in
  inputTokens r = 0%Z
  /\ outputTokens r = 0%Z
  /\ (success r = true ->
      truthy (response r) = true
      /\ error r = None
      /\ (cost r <> None <-> (0 < 12)%Z))
  /\ (success r = false -> cost r = None).
Proof.
  exact (@execute_result_shape (host "done" [] 0)
           12 "fix the build" "/repo" None
           (succeeded (parseOutput "done") 12) eq_refl).
Defined.

End MoreRuns.

(** ** Syncing the PRD to a GitHub issue *)

Section IssueSyncFacts.

Import Js IssueSync.

Variable spawn : Spawn -> Outcome Proc.
Variable readFileSync : string -> Outcome string.
Variable join : string -> string -> string.

(** X21.  [syncPrdToIssue] returns true exactly when [gh] is logged
    in, the PRD file could be read and the edit of the issue exited with
    code 0.  It first asks [gh] for its login state; it runs the edit,
    in the working directory and with the content of the file as the
    body, only after that check and the read have succeeded, and runs
    nothing else.  A path that starts with a slash is read as it is. *)
Theorem syncPrdToIssue_syncs_only_when_ready (prdFile : string)
    (issueNumber : Z) (workDir : string) :
  let run := syncPrdToIssue spawn readFileSync join prdFile issueNumber
               workDir in
  let path := prdPathOf join prdFile workDir in
  (result run = true <->
     exists auth content edited,
       spawn authStatus = Returned auth /\ exitCode auth = 0%Z
       /\ readFileSync path = Returned content
       /\ spawn (issueEdit issueNumber content workDir) = Returned edited
       /\ exitCode edited = 0%Z)
  /\ (spawns run = [authStatus]
      \/ exists auth content,
           spawn authStatus = Returned auth /\ exitCode auth = 0%Z
           /\ readFileSync path = Returned content
           /\ spawns run
              = [authStatus; issueEdit issueNumber content workDir])
  /\ (startsWith "/" prdFile = true -> path = prdFile)
  /\ logs run <> [].
Proof.
  intros run path. unfold run, syncPrdToIssue, isGhAvailable. fold path.
  split; [| split; [| split]].
  - destruct (spawn authStatus) as [auth|e]; cbn.
    + destruct (Z.eqb_spec (exitCode auth) 0) as [Ha|Ha]; cbn.
      * destruct (readFileSync path) as [content|e]; cbn.
        -- destruct (spawn (issueEdit issueNumber content workDir))
             as [edited|e] eqn:Hedit; cbn.
           ++ destruct (Z.eqb_spec (exitCode edited) 0) as [He|He]; cbn.
              ** split; [intros _ | reflexivity].
                 exists auth, content, edited. repeat split; assumption.
              ** destruct (stderr edited) as [txt|err]; cbn; split; try discriminate;
                   intros (au & co & ed & Hs & _ & Hc & Hed & Hz);
                   inversion Hc; subst co; rewrite Hedit in Hed;
                   inversion Hed; subst ed; contradiction.
           ++ split; [discriminate |].
              intros (au & co & ed & _ & _ & Hc & Hed & _).
              inversion Hc; subst co. rewrite Hedit in Hed. discriminate.
        -- split; [discriminate |].
           intros (au & co & ed & _ & _ & Hc & _). discriminate.
      * split; [discriminate |].
        intros (au & co & ed & Hs & Hz & _). inversion Hs; subst au.
        contradiction.
    + split; [discriminate |].
      intros (au & co & ed & Hs & _). discriminate.
  - destruct (spawn authStatus) as [auth|e]; cbn; [| now left].
    destruct (Z.eqb_spec (exitCode auth) 0) as [Ha|Ha]; cbn; [| now left].
    destruct (readFileSync path) as [content|e]; cbn; [| now left].
    right. exists auth, content. repeat split; try assumption.
    destruct (spawn (issueEdit issueNumber content workDir)) as [edited|e];
      cbn; [| reflexivity].
    destruct (exitCode edited =? 0)%Z; [reflexivity |].
    destruct (stderr edited); reflexivity.
  - intros Habs. unfold path, prdPathOf. now rewrite Habs.
  - destruct (spawn authStatus) as [auth|e]; cbn; [| discriminate].
    destruct (exitCode auth =? 0)%Z; cbn; [| discriminate].
    destruct (readFileSync path) as [content|e]; cbn; [| discriminate].
    destruct (spawn (issueEdit issueNumber content workDir)) as [edited|e];
      cbn; [| discriminate].
    destruct (exitCode edited =? 0)%Z; [discriminate |].
    destruct (stderr edited); discriminate.
Qed.

End IssueSyncFacts.

(** ** Runs of the webhook and of the issue sync *)

Module OtherRuns.

Import Js.

(** X20 at work: the address is used as configured, with its spaces,
    and an error body that cannot be read leaves the status in the log. *)
Lemma sendTelemetryWebhook_run :
  let result :=
    Telemetry.sendTelemetryWebhook "2026-01-01T00:00:00.000Z"
      Telemetry.serverError Telemetry.sampleSession
      (Telemetry.configWith " https://hooks.example/t ") None in
  snd result
  = [Telemetry.mkRequest string " https://hooks.example/t " "POST"
       "application/json"
       (Telemetry.buildPayload "2026-01-01T00:00:00.000Z"
          Telemetry.sampleSession Telemetry.Anonymous)]
  /\ fst result
     = [Telemetry.LogError "Telemetry webhook failed: HTTP 500"].
Proof.
  split.
  - exact (proj1
             (proj2 (proj2
                (sendTelemetryWebhook_sends_at_most_once string
                   "2026-01-01T00:00:00.000Z" Telemetry.serverError
                   Telemetry.sampleSession
                   (Telemetry.configWith " https://hooks.example/t ")
                   None))
                " https://hooks.example/t " eq_refl eq_refl)).
  - reflexivity.
Defined.

(** X21 at work: a relative PRD path on a machine where [gh] works. *)
Lemma syncPrdToIssue_run :
  IssueSync.result
    (IssueSync.syncPrdToIssue IssueSync.ghWorks IssueSync.oneFile
       IssueSync.joinPaths "PRD.md" 42 "/repo") = true.
Proof.
  apply (proj1 (syncPrdToIssue_syncs_only_when_ready IssueSync.ghWorks
                  IssueSync.oneFile IssueSync.joinPaths "PRD.md" 42
                  "/repo")).
  exists (IssueSync.mkProc 0 (Returned EmptyString)), "- [ ] ship it",
    (IssueSync.mkProc 0 (Returned EmptyString)).
  repeat split.
Defined.

End OtherRuns.
